(** * PyPSA-Earth helper scripts: a shallow embedding

    The functions embedded here come from [scripts/_helpers.py],
    [scripts/add_extra_components.py] and [scripts/build_natura_raster.py].
    Tables (pandas data frames) are lists of records in row order, Python
    exceptions are values of [exn] carried by the [result] type, integers
    are [Z], strings are [string], and the floating-point columns are
    idealised as exact numbers ([Q] where only sums and quotients occur,
    [R] where a real power occurs). *)

From Stdlib Require Import ZArith QArith List String Ascii Bool Lia Arith.
From Stdlib Require Import Reals Lra Rpower.
From Stdlib Require Import Sorting.Sorted Sorting.Permutation.
From Stdlib Require OrderedTypeEx.
From Stdlib Require Import Qround Qabs.
From Stdlib Require Lqa.
From Stdlib Require Import Qreals.
Import ListNotations.

Local Open Scope string_scope.
Local Open Scope Z_scope.

(** ** Python exceptions and fallible results *)

Module Py.

(** The exception classes the embedded code can raise, each with the
    message CPython / pandas attaches to it. *)
Inductive exn : Type :=
| ValueError (msg : string)
| UnboundLocalError (msg : string)
| GEOSException (msg : string).

Inductive result (A : Type) : Type :=
| Ok (a : A)
| Raise (e : exn).
Arguments Ok {A} a.
Arguments Raise {A} e.

Definition bind {A B : Type} (r : result A) (k : A -> result B) : result B :=
  match r with
  | Ok a => k a
  | Raise e => Raise e
  end.

(** [try: body  except ValueError: handler] *)
Definition try_except_ValueError {A : Type} (body : result A)
    (handler : result A) : result A :=
  match body with
  | Raise (ValueError _) => handler
  | other => other
  end.

(** [Series.item()]: the only element of a one-element series. *)
Definition item_msg : string :=
  "can only convert an array of size 1 to a Python scalar".

Definition item {A : Type} (s : list A) : result A :=
  match s with
  | [a] => Ok a
  | _ => Raise (ValueError item_msg)
  end.

Definition is_ok {A : Type} (r : result A) : bool :=
  match r with Ok _ => true | Raise _ => false end.

End Py.

Notation "x <- c1 ;; c2" := (Py.bind c1 (fun x => c2))
  (at level 61, c1 at next level, right associativity).

(** ** [get_gadm_layer]: which layer of the geopackage is read *)

Module GadmLayer.

(** [np.mod(a, n)]: the sign of the result follows the divisor, and a zero
    divisor gives zero. *)
Definition np_mod (a n : Z) : Z :=
  if n =? 0 then 0 else a mod n.

(** The test [layer_id < 0 | layer_id >= len(list_layers)].  Bitwise [|]
    binds tighter than the comparisons, so Python reads the chain
    [layer_id < (0 | layer_id) >= len(list_layers)]. *)
Definition layer_guard (layer_id n : Z) : bool :=
  let middle := Z.lor 0 layer_id in
  (layer_id <? middle) && (middle >=? n).

(** One pass of the loop body for a country whose geopackage lists
    [list_layers]: the (possibly reassigned) [layer_id] and [code_layer]. *)
Definition select_layer (layer_id : Z) (list_layers : list string) : Z * Z :=
  let n := Z.of_nat (List.length list_layers) in
  let layer_id' := if layer_guard layer_id n then n - 1 else layer_id in
  (layer_id', np_mod layer_id' n).

Definition code_layer (layer_id : Z) (list_layers : list string) : Z :=
  snd (select_layer layer_id list_layers).

(** The loop over [country_list]; [layer_id] is a local variable that the
    body may reassign, so it is threaded from one country to the next.
    The argument lists the layers of each country's geopackage. *)
Fixpoint code_layers (layer_id : Z) (layers : list (list string)) : list Z :=
  match layers with
  | [] => []
  | list_layers :: rest =>
      let '(layer_id', code) := select_layer layer_id list_layers in
      code :: code_layers layer_id' rest
  end.

End GadmLayer.

(** ** [two_2_three_digits_country] and [three_2_two_digits_country] *)

Module CountryCodes.

(** The target classifications the two functions ask for. *)
Inductive classification : Type := ISO2 | ISO3.

Section Converter.

(** [coco.convert(name, to=...)] of the [country_converter] package, a
    dependency of the repository: a parameter of the embedding. *)
Variable coco_convert : string -> classification -> string.

(** The special case calls the function itself on the literals ["SN"]
    and ["GM"]; neither is ["SN-GM"], so each of the two calls takes the
    [coco.convert] path.  The definition writes the two inner calls in
    that reduced form, and [two_2_three_digits_country_eq] below checks
    it against the recursive equation of the source. *)
Definition two_2_three_digits_country (two_code_country : string) : string :=
  if String.eqb two_code_country "SN-GM" then
    coco_convert "SN" ISO3 ++ "-" ++ coco_convert "GM" ISO3
  else coco_convert two_code_country ISO3.

(** Here too the inner calls are on ["SN"] and ["GM"] (already two-letter
    codes), neither of which is ["SEN-GMB"]. *)
Definition three_2_two_digits_country (three_code_country : string) : string :=
  if String.eqb three_code_country "SEN-GMB" then
    coco_convert "SN" ISO2 ++ "-" ++ coco_convert "GM" ISO2
  else coco_convert three_code_country ISO2.

End Converter.

(** A table-driven converter, as [country_converter] works on its country
    table: with no source classification given the package guesses it from
    the length of the name (two characters: ISO2, three: ISO3) and answers
    ["not found"] for a name the guessed column does not hold.  Names of
    other lengths are matched against name patterns by the package; the
    table here has none. *)
Record country : Type := { iso2 : string; iso3 : string }.

Definition project (to : classification) (c : country) : string :=
  match to with ISO2 => iso2 c | ISO3 => iso3 c end.

Definition table_convert (table : list country) (name : string)
    (to : classification) : string :=
  let column :=
    match String.length name with
    | 2%nat => Some iso2
    | 3%nat => Some iso3
    | _ => None
    end in
  match column with
  | Some col =>
      match find (fun c => String.eqb (col c) name) table with
      | Some c => project to c
      | None => "not found"
      end
  | None => "not found"
  end.

Definition sample_table : list country :=
  [ {| iso2 := "SN"; iso3 := "SEN" |};
    {| iso2 := "GM"; iso3 := "GMB" |};
    {| iso2 := "MA"; iso3 := "MAR" |};
    {| iso2 := "NG"; iso3 := "NGA" |} ].

(** What the two functions rely on from [coco.convert], for a table of
    countries with their valid codes: the codes have two and three
    characters, a three-letter code converts to the two-letter code of the
    same country and back, and a two-letter code asked for as ISO2 is
    returned as it is. *)
Definition converter_agrees (coco_convert : string -> classification -> string)
    (countries : list country) : Prop :=
  forall c, In c countries ->
    String.length (iso2 c) = 2%nat
    /\ String.length (iso3 c) = 3%nat
    /\ coco_convert (iso3 c) ISO2 = iso2 c
    /\ coco_convert (iso2 c) ISO3 = iso3 c
    /\ coco_convert (iso2 c) ISO2 = iso2 c.

Definition senegal : country := {| iso2 := "SN"; iso3 := "SEN" |}.
Definition gambia : country := {| iso2 := "GM"; iso3 := "GMB" |}.

End CountryCodes.

(** ** [create_network_topology] *)

Module Topology.

(** Rows of [n.lines] and [n.links], with the columns the function reads.
    [None] in [lk_underwater_fraction] is a missing value (NaN). *)
Record line : Type :=
  { ln_bus0 : string; ln_bus1 : string; ln_length : Q }.

Record link : Type :=
  { lk_carrier : string; lk_bus0 : string; lk_bus1 : string;
    lk_length : Q; lk_underwater_fraction : option Q }.

(** [links_has_underwater_fraction] says whether ["underwater_fraction"] is
    among [n.links.columns]; the values of the field are read only then. *)
Record network : Type :=
  { lines : list line;
    links : list link;
    links_has_underwater_fraction : bool }.

(** A row of [candidates]. *)
Record edge : Type :=
  { bus0 : string; bus1 : string; length : Q; underwater_fraction : Q }.

(** A row of the returned frame, with its index label. *)
Record row : Type :=
  { index : string; r_bus0 : string; r_bus1 : string;
    r_length : Q; r_underwater_fraction : Q }.

(** The temporary fix for a missing ["underwater_fraction"] column: the
    whole column becomes [None] for an empty table and [0.0] otherwise. *)
Definition fix_underwater_fraction (n : network) : list link :=
  if links_has_underwater_fraction n then links n
  else
    let fill := match links n with [] => None | _ => Some 0%Q end in
    map (fun l => {| lk_carrier := lk_carrier l; lk_bus0 := lk_bus0 l;
                     lk_bus1 := lk_bus1 l; lk_length := lk_length l;
                     lk_underwater_fraction := fill |}) (links n).

Definition fillna0 (v : option Q) : Q :=
  match v with Some q => q | None => 0%Q end.

(** [pd.concat([n.lines[ln_attrs], n.links.loc[carrier == "DC", lk_attrs]])
    .fillna(0)]: lines have no underwater fraction, so theirs is missing. *)
Definition raw_candidates (n : network) : list edge :=
  map (fun l => {| bus0 := ln_bus0 l; bus1 := ln_bus1 l;
                   length := ln_length l;
                   underwater_fraction := fillna0 None |}) (lines n)
  ++ map (fun l => {| bus0 := lk_bus0 l; bus1 := lk_bus1 l;
                      length := lk_length l;
                      underwater_fraction :=
                        fillna0 (lk_underwater_fraction l) |})
       (filter (fun l => String.eqb (lk_carrier l) "DC")
          (fix_underwater_fraction n)).

(** [candidates.bus0 < candidates.bus1], the order of Python strings. *)
Definition positive_order (c : edge) : bool := String.ltb (bus0 c) (bus1 c).

(** [rename(columns=swap_buses)] on one row. *)
Definition swap_edge (c : edge) : edge :=
  {| bus0 := bus1 c; bus1 := bus0 c; length := length c;
     underwater_fraction := underwater_fraction c |}.

Definition normalize (candidates : list edge) : list edge :=
  let candidates_p := filter positive_order candidates in
  let candidates_n :=
    map swap_edge (filter (fun c => negb (positive_order c)) candidates) in
  candidates_p ++ candidates_n.

(** Group keys [(bus0, bus1)] and their order (groupby sorts its keys). *)
Definition key : Type := (string * string)%type.

Definition key_of (c : edge) : key := (bus0 c, bus1 c).

Definition key_eqb (a b : key) : bool :=
  String.eqb (fst a) (fst b) && String.eqb (snd a) (snd b).

Definition key_ltb (a b : key) : bool :=
  String.ltb (fst a) (fst b)
  || (String.eqb (fst a) (fst b) && String.ltb (snd a) (snd b)).

Fixpoint insert_key (k : key) (ks : list key) : list key :=
  match ks with
  | [] => [k]
  | k' :: rest =>
      if key_eqb k k' then ks
      else if key_ltb k k' then k :: ks
      else k' :: insert_key k rest
  end.

Definition group_keys (candidates : list edge) : list key :=
  fold_right insert_key [] (map key_of candidates).

Definition Qsum (xs : list Q) : Q := fold_right Qplus 0%Q xs.

(** The arithmetic mean.  A float has one representation, so the quotient
    is kept in lowest terms: equal means are equal terms. *)
Definition mean (xs : list Q) : Q :=
  Qred (Qsum xs / inject_Z (Z.of_nat (List.length xs)))%Q.

Section MakeIndex.

Variables (prefix connector : string).

Definition make_index (b0 b1 : string) : string :=
  prefix ++ b0 ++ connector ++ b1.

(** [candidates.groupby(["bus0", "bus1"], as_index=False).mean()] followed
    by the assignment of the index. *)
Definition groupby_mean (candidates : list edge) : list row :=
  map (fun k =>
         let group := filter (fun c => key_eqb (key_of c) k) candidates in
         {| index := make_index (fst k) (snd k);
            r_bus0 := fst k; r_bus1 := snd k;
            r_length := mean (map length group);
            r_underwater_fraction :=
              mean (map underwater_fraction group) |})
      (group_keys candidates).

(** A row of [topo_reverse]: the bus columns renamed into each other and
    the index recomputed. *)
Definition reverse_row (r : row) : row :=
  {| index := make_index (r_bus1 r) (r_bus0 r);
     r_bus0 := r_bus1 r; r_bus1 := r_bus0 r;
     r_length := r_length r;
     r_underwater_fraction := r_underwater_fraction r |}.

(** The frame returned for a table of candidates.  (For an empty table
    the model gives the empty frame; what pandas' [apply] does on a frame
    without rows is not modelled.) *)
Definition create_network_topology (n : network) (bidirectional : bool)
    : list row :=
  let topo := groupby_mean (normalize (raw_candidates n)) in
  if negb bidirectional then topo ++ map reverse_row topo else topo.

End MakeIndex.

(** Two networks to run the function on: the same connection entered once
    in each direction, and a line from a bus to itself. *)
Definition two_way_network : network :=
  {| lines := [ {| ln_bus0 := "MA 0"; ln_bus1 := "MA 1"; ln_length := 10 |};
                {| ln_bus0 := "MA 1"; ln_bus1 := "MA 0"; ln_length := 10 |} ];
     links := [];
     links_has_underwater_fraction := false |}.

Definition two_way_row : row :=
  {| index := "MA 0 <-> MA 1"; r_bus0 := "MA 0"; r_bus1 := "MA 1";
     r_length := 10; r_underwater_fraction := 0 |}.

Definition self_loop_network : network :=
  {| lines := [ {| ln_bus0 := "MA 0"; ln_bus1 := "MA 0"; ln_length := 10 |} ];
     links := [];
     links_has_underwater_fraction := false |}.

Definition key_lt (a b : key) : Prop := key_ltb a b = true.

(** The canonical form of a candidate: the row that [normalize] keeps
    for it, with the bus that comes first in the order of strings as
    [bus0]. *)
Definition canonical (c : edge) : edge :=
  if positive_order c then c else swap_edge c.

(** The index and the bus columns of a returned frame, row by row: the
    part of it that holds no float. *)
Definition connections (topo : list row) : list (string * string * string) :=
  map (fun r => (index r, r_bus0 r, r_bus1 r)) topo.

(** The lines of [two_way_network], both entered from "MA 1" to "MA 0" and
    in the other order. *)
Definition one_way_network : network :=
  {| lines := [ {| ln_bus0 := "MA 1"; ln_bus1 := "MA 0"; ln_length := 10 |};
                {| ln_bus0 := "MA 1"; ln_bus1 := "MA 0"; ln_length := 10 |} ];
     links := [];
     links_has_underwater_fraction := false |}.

End Topology.

(** ** Strings: [in] / [str.contains] on plain text, [str.removesuffix] *)

Module Str.

(** [pat in s]; also [s.str.contains(pat)] for a pattern made of letters,
    digits and dashes (country and region codes), which the regular
    expression engine reads literally. *)
Fixpoint str_contains (pat s : string) : bool :=
  String.prefix pat s
  || match s with
     | EmptyString => false
     | String _ s' => str_contains pat s'
     end.

(** A pattern made of ASCII letters, digits and dashes only (a country
    code such as [MA] or [SN-GM]): none of its characters is special to
    the regular-expression engine behind [s.str.contains(pat)], so the
    search is the substring test [str_contains]. *)
Definition plain_char (c : ascii) : bool :=
  let n := nat_of_ascii c in
  ((48 <=? n) && (n <=? 57) || (65 <=? n) && (n <=? 90)
   || (97 <=? n) && (n <=? 122) || (n =? 45))%nat.

Definition plain_pattern (pat : string) : bool :=
  forallb plain_char (list_ascii_of_string pat).

(** [s.removesuffix(suffix)]: [s] without its ending [suffix], or [s]
    itself when it does not end with it. *)
Fixpoint removesuffix (s suffix : string) : string :=
  if String.eqb s suffix then EmptyString
  else match s with
       | EmptyString => EmptyString
       | String c s' => String c (removesuffix s' suffix)
       end.

End Str.

(** ** [locate_bus] *)

Module LocateBus.

(** [coords]: a series with entries ["x"] and ["y"]. *)
Record point : Type := { x : Q; y : Q }.

(** [a < b] on the (finite) floats that distances are. *)
Definition Qltb (a b : Q) : bool := negb (Qle_bool b a).

Definition min_msg : string := "min() arg is an empty sequence".

Section Min.

Context {A : Type} (key : A -> Q).

(** The loop of the built-in [min(iterable, key=...)]: the running best
    is replaced only by an item whose key is strictly smaller. *)
Fixpoint min_by (best : A) (rest : list A) : A :=
  match rest with
  | [] => best
  | a :: rest' =>
      if Qltb (key a) (key best) then min_by a rest' else min_by best rest'
  end.

Definition py_min (l : list A) : Py.result A :=
  match l with
  | [] => Py.Raise (Py.ValueError min_msg)
  | a :: rest => Py.Ok (min_by a rest)
  end.

End Min.

Section Geometry.

(** The geometry values of shapely and the three operations on them that
    the function uses: [==], [contains] and [distance]. *)
Variable geometry : Type.
Variable geometry_eq_dec : forall a b : geometry, {a = b} + {a <> b}.
Variable contains : geometry -> point -> bool.
Variable distance : point -> geometry -> Q.

(** A row of [gdf]: the value in the identifier column [col] and the
    geometry. *)
Record region : Type := { identifier : string; geom : geometry }.

Definition geometry_eqb (a b : geometry) : bool :=
  if geometry_eq_dec a b then true else false.

(** [gdf[gdf[col].str.contains(co)]] *)
Definition candidates (gdf : list region) (co : string) : list region :=
  filter (fun r => Str.str_contains co (identifier r)) gdf.

(** The [try] body: [gdf_co[gdf_co.contains(point)][col].item()]. *)
Definition containing (gdf_co : list region) (p : point) : list region :=
  filter (fun r => contains (geom r) p) gdf_co.

(** The handler: the nearest geometry, then the rows that carry it. *)
Definition nearest (gdf_co : list region) (p : point) : Py.result string :=
  g <- py_min (distance p) (map geom gdf_co) ;;
  Py.item (map identifier
             (filter (fun r => geometry_eqb (geom r) g) gdf_co)).

(** [locate_bus] from the point where [gdf] and [col] are known: [gdf]
    holds the rows of the frame that was read, with column [col]. *)
Definition locate_bus (gdf : list region) (co : string) (coords : point)
    : Py.result string :=
  let gdf_co := candidates gdf co in
  let point := coords in
  Py.try_except_ValueError
    (Py.item (map identifier (containing gdf_co point)))
    (nearest gdf_co point).

End Geometry.

Arguments identifier {geometry} r.
Arguments geom {geometry} r.

(** An error that names the condition of an empty candidate set. *)
Definition describes_no_candidate (e : Py.exn) : bool :=
  match e with
  | Py.ValueError msg | Py.UnboundLocalError msg | Py.GEOSException msg =>
      Str.str_contains "region" msg || Str.str_contains "candidate" msg
  end.

(** *** Meridian bands, a geometry to run the function on

    The part of the plane between two meridians [west <= east].  A point is
    contained when it lies strictly between them (a point on the boundary
    of a geometry is not contained in it), and the Euclidean distance from
    a point to the band is the horizontal gap to it. *)
Record band : Type := { west : Q; east : Q }.

Definition band_eq_dec (a b : band) : {a = b} + {a <> b}.
Proof.
  decide equality;
    match goal with |- {?u = ?v} + {_} => destruct u, v end;
    decide equality; try apply Z.eq_dec; apply Pos.eq_dec.
Defined.

Definition band_contains (b : band) (p : point) : bool :=
  Qltb (west b) (x p) && Qltb (x p) (east b).

Definition band_distance (p : point) (b : band) : Q :=
  if Qltb (x p) (west b) then (west b - x p)%Q
  else if Qltb (east b) (x p) then (x p - east b)%Q
  else 0%Q.

Definition locate_bus_band :=
  locate_bus band band_eq_dec band_contains band_distance.

Definition band_region (id : string) (w e : Q) : region band :=
  {| identifier := id; geom := {| west := w; east := e |} |}.

Definition origin : point := {| x := 0; y := 0 |}.

(** Three overlapping regions of one country and one of another. *)
Definition overlapping_gdf : list (region band) :=
  [ band_region "MA.1_1" 0 2; band_region "MA.2_1" 1 3;
    band_region "MA.3_1" 1 4; band_region "DZ.1_1" 5 9 ].

(** Regions at distances 3, 1 and 2 from the meridian [x = 0]. *)
Definition coastal_gdf : list (region band) :=
  [ band_region "MA.3_1" 3 5; band_region "MA.1_1" 1 2;
    band_region "MA.2_1" 2 4 ].

(** Two rows with the same geometry. *)
Definition duplicated_gdf : list (region band) :=
  [ band_region "MA.1_1" 1 2; band_region "MA.2_1" 1 2 ].

End LocateBus.

(** ** [set_length_based_efficiency] *)

Module LengthEfficiency.

Local Open Scope R_scope.

(** A row of [n.links].  [None] in [bus2] or [efficiency2] is a cell that
    holds no value (the column is absent or the cell is missing). *)
Record link : Type :=
  { name : string; carrier : string; bus0 : string; length : R;
    efficiency : R; bus2 : option string; efficiency2 : option R }.

(** [config["sector"]["transmission_efficiency"][carrier]]: a dictionary in
    which each of the three keys may be absent. *)
Record efficiencies : Type :=
  { efficiency_static : option R;
    efficiency_per_1000km : option R;
    compression_per_1000km : option R }.

(** [d.get(key, default)] *)
Definition get {A : Type} (v : option A) (default : A) : A :=
  match v with Some a => a | None => default end.

(** [x ** y] on floats, for a positive base [x]: [exp (y * ln x)]. *)
Definition float_pow (x y : R) : R := Rpower x y.

Definition set_efficiency (v : R) (l : link) : link :=
  {| name := name l; carrier := carrier l; bus0 := bus0 l;
     length := length l; efficiency := v;
     bus2 := bus2 l; efficiency2 := efficiency2 l |}.

Definition set_bus2 (v : string) (l : link) : link :=
  {| name := name l; carrier := carrier l; bus0 := bus0 l;
     length := length l; efficiency := efficiency l;
     bus2 := Some v; efficiency2 := efficiency2 l |}.

Definition set_efficiency2 (v : R) (l : link) : link :=
  {| name := name l; carrier := carrier l; bus0 := bus0 l;
     length := length l; efficiency := efficiency l;
     bus2 := bus2 l; efficiency2 := Some v |}.

(** [n.links.loc[carrier_i, column] = f(row)]: the rows whose carrier is
    the target get the new value, the others stay as they are. *)
Definition assign_loc (target : string) (f : link -> link)
    (links : list link) : list link :=
  map (fun l => if String.eqb (carrier l) target then f l else l) links.

(** The function acts on [n.links] only; the table before and after. *)
Definition set_length_based_efficiency (links : list link)
    (target_carrier bus_suffix : string) (config : efficiencies)
    : list link :=
  let efficiency_static := get (efficiency_static config) 1 in
  let efficiency_per_1000km := get (efficiency_per_1000km config) 1 in
  let compression_per_1000km := get (compression_per_1000km config) 0 in
  let links :=
    assign_loc target_carrier
      (fun l => set_efficiency
                  (efficiency_static
                   * float_pow efficiency_per_1000km (length l / 1000)) l)
      links in
  if Rlt_dec 0 compression_per_1000km then
    let links :=
      assign_loc target_carrier
        (fun l => set_bus2 (Str.removesuffix (bus0 l) bus_suffix) l) links in
    assign_loc target_carrier
      (fun l => set_efficiency2
                  (- compression_per_1000km * length l / 1000) l) links
  else links.

(** The three assignments seen from one row; the lemma
    [set_length_based_efficiency_rows] relates it to the function. *)
Definition updated_row (target bus_suffix : string) (config : efficiencies)
    (l : link) : link :=
  let static := get (efficiency_static config) 1 in
  let per := get (efficiency_per_1000km config) 1 in
  let compression := get (compression_per_1000km config) 0 in
  if String.eqb (carrier l) target then
    if Rlt_dec 0 compression then
      {| name := name l; carrier := carrier l; bus0 := bus0 l;
         length := length l;
         efficiency := static * float_pow per (length l / 1000);
         bus2 := Some (Str.removesuffix (bus0 l) bus_suffix);
         efficiency2 := Some (- compression * length l / 1000) |}
    else
      {| name := name l; carrier := carrier l; bus0 := bus0 l;
         length := length l;
         efficiency := static * float_pow per (length l / 1000);
         bus2 := bus2 l; efficiency2 := efficiency2 l |}
  else l.

(** A table to run the function on: two hydrogen pipelines, one of length
    2000 and one of length 1000, a pipeline of length 0 and a DC link. *)
Definition sample_links : list link :=
  [ {| name := "H2 pipeline MA 0-MA 1"; carrier := "H2 pipeline";
       bus0 := "MA 0 H2"; length := 2000; efficiency := 1;
       bus2 := None; efficiency2 := None |};
    {| name := "H2 pipeline MA 1-MA 2"; carrier := "H2 pipeline";
       bus0 := "MA 1 H2"; length := 1000; efficiency := 1;
       bus2 := None; efficiency2 := None |};
    {| name := "H2 pipeline MA 2-MA 2"; carrier := "H2 pipeline";
       bus0 := "MA 2 H2"; length := 0; efficiency := 1;
       bus2 := None; efficiency2 := None |};
    {| name := "DC MA 0-MA 2"; carrier := "DC";
       bus0 := "MA 0"; length := 500; efficiency := 1;
       bus2 := None; efficiency2 := None |} ].

Definition sample_config : efficiencies :=
  {| efficiency_static := Some (98 / 100);
     efficiency_per_1000km := Some (95 / 100);
     compression_per_1000km := Some (1 / 100) |}.

End LengthEfficiency.

(** ** [unify_protected_shape_areas] *)

Module NaturaRaster.

Definition unbound_shape_msg : string :=
  "local variable 'shape' referenced before assignment".

Definition unknown_geometry_msg : string := "Unknown column geometry".

Section Backend.

(** geopandas and shapely, as far as the function uses them:
    [gpd.read_file] (the geometry column of the file), the reprojection
    [to_crs(3035)] of one geometry, [is_valid], [buffer(0)] and
    [unary_union], which may raise. *)
Variable geometry : Type.
Variable read_file : string -> list geometry.
Variable to_crs : geometry -> geometry.
Variable is_valid : geometry -> bool.
Variable buffer0 : geometry -> geometry.
Variable unary_union : list geometry -> Py.result geometry.

(** [geom if geom.is_valid else geom.buffer(0)] *)
Definition repair (geom : geometry) : geometry :=
  if is_valid geom then geom else buffer0 geom.

Definition shp_files (snakemake_input : list string) : list string :=
  filter (Str.str_contains ".shp") snakemake_input.

(** The geometry column of the frame that the loop leaves in [shape]:
    every pass of the loop builds the same frame from all the files. *)
Definition read_shapes (files : list string) : list geometry :=
  map to_crs (List.concat (map read_file files)).

(** The geometry of the one-row frame that is returned.  Without any
    [.shp] input the loop body never runs and [shape] is unbound; a frame
    built from an empty list has no column to name ["geometry"]. *)
Definition unify_protected_shape_areas (snakemake_input : list string)
    : Py.result geometry :=
  match shp_files snakemake_input with
  | [] => Py.Raise (Py.UnboundLocalError unbound_shape_msg)
  | files =>
      let shape := map repair (read_shapes files) in
      match shape with
      | [] => Py.Raise (Py.ValueError unknown_geometry_msg)
      | _ => unary_union shape
      end
  end.

End Backend.

End NaturaRaster.

(** ** [two_digits_2_name_country] and [country_name_2_two_digits] *)

Module CountryNames.

(** [s.split(", ")]: the pieces between the occurrences of the separator,
    found from left to right; a string without it is its only piece. *)
Fixpoint split_comma (s : string) : list string :=
  match s with
  | EmptyString => [EmptyString]
  | String c s1 =>
      let extend :=
        match split_comma s1 with
        | piece :: pieces => String c piece :: pieces
        | [] => [String c EmptyString]
        end in
      match s1 with
      | String c2 s2 =>
          if Ascii.eqb c "," && Ascii.eqb c2 " "
          then EmptyString :: split_comma s2
          else extend
      | EmptyString => extend
      end
  end.

(** [s[n:]] *)
Fixpoint drop (n : nat) (s : string) : string :=
  match n, s with
  | O, _ => s
  | S n', String _ s' => drop n' s'
  | S _, EmptyString => EmptyString
  end.

(** [s.replace(word, "", 1)]: [s] without the first occurrence of [word]. *)
Fixpoint remove_first (word s : string) : string :=
  if String.prefix word s then drop (String.length word) s
  else match s with
       | EmptyString => EmptyString
       | String c s' => String c (remove_first word s')
       end.

(** The separator-reversing step taken when [no_comma] is set. *)
Definition reverse_comma_parts (full_name : string) : string :=
  String.concat " " (rev (split_comma full_name)).

(** The loop over [remove_start_words]; each word is tested against the
    name as the words before it have left it. *)
Definition remove_start (remove_start_words : list string)
    (full_name : string) : string :=
  fold_left
    (fun name word =>
       if String.prefix word name then remove_first word name else name)
    remove_start_words full_name.

Section Converter.

(** [coco.convert(name, to=...)] with the target given as a string. *)
Variable coco_convert : string -> string -> string.

(** The function from the call of [coco.convert] on: what it does for a
    code that is not ["SN-GM"]. *)
Definition name_of_code (two_code_country name_string : string)
    (no_comma : bool) (remove_start_words : list string) : string :=
  let full_name := coco_convert two_code_country name_string in
  let full_name :=
    if no_comma then reverse_comma_parts full_name else full_name in
  match remove_start_words with
  | [] => full_name
  | _ => remove_start remove_start_words full_name
  end.

(** [remove_start_words] is [None] or a list.  For ["SN-GM"] the function
    calls itself on ["SN"] and ["GM"] with one argument, so with the
    default values of the others; the two calls are written in their
    reduced form (neither code is ["SN-GM"]). *)
Definition two_digits_2_name_country (two_code_country name_string : string)
    (no_comma : bool) (remove_start_words : option (list string)) : string :=
  let remove_start_words :=
    match remove_start_words with None => [] | Some l => l end in
  if String.eqb two_code_country "SN-GM" then
    name_of_code "SN" "name_short" false []
    ++ "-" ++ name_of_code "GM" "name_short" false []
  else name_of_code two_code_country name_string no_comma remove_start_words.

Definition country_name_2_two_digits (country_name : string) : string :=
  if String.eqb country_name
       (two_digits_2_name_country "SN" "name_short" false (Some [])
        ++ "-" ++ two_digits_2_name_country "GM" "name_short" false (Some []))
  then "SN-GM"
  else coco_convert country_name "ISO2".

End Converter.

(** A converter with three countries, to run the functions on. *)
Definition sample_convert (name to : string) : string :=
  if String.eqb name "SN" then "Senegal"
  else if String.eqb name "GM" then "Gambia"
  else if String.eqb name "CD" then "Congo, The Democratic Republic of"
  else "not found".

End CountryNames.

(** ** [create_country_list] *)

Module CountryList.

(** A dictionary read from the regions configuration, with string keys in
    the order of the file. *)
Definition dict (V : Type) : Type := list (string * V).

Definition dict_get {V : Type} (d : dict V) (k : string) : option V :=
  match find (fun kv => String.eqb (fst kv) k) d with
  | Some kv => Some (snd kv)
  | None => None
  end.

(** [filter_codes]: with ISO coding only the two-character codes stay.
    (The warning that is logged when some are removed is not modelled.) *)
Definition filter_codes (c_list : list string) (iso_coding : bool)
    : list string :=
  if iso_coding then
    filter (fun c => Nat.eqb (String.length c) 2) c_list
  else c_list.

Section Config.

(** [world_iso]: continent to the codes of its countries (the keys of the
    inner dictionary, in order); [continent_regions]: region to codes. *)
Variable world_iso : dict (list string).
Variable continent_regions : dict (list string).

(** [list(set(l))]: the elements of [l], each once, in the order in which
    the interpreter happens to iterate the set. *)
Variable list_of_set : list string -> list string.

(** [codes_list] at the end of one pass of the loop over [input]. *)
Definition expand (value1 : string) : list string :=
  if String.eqb value1 "Earth" then
    List.concat (map snd world_iso)
  else
    match dict_get world_iso value1 with
    | Some codes => codes
    | None =>
        match dict_get continent_regions value1 with
        | Some codes => codes
        | None => [value1]
        end
    end.

Definition create_country_list (input : list string) (iso_coding : bool)
    : list string :=
  let full_codes_list := List.concat (map expand input) in
  filter_codes (list_of_set full_codes_list) iso_coding.

End Config.

(** What is known of the order of [list(set(l))]: nothing; of its
    elements: those of [l], without repetition. *)
Definition is_list_of_set (list_of_set : list string -> list string) : Prop :=
  forall l, NoDup (list_of_set l)
            /\ forall c, In c (list_of_set l) <-> In c l.

Definition sample_world_iso : dict (list string) :=
  [ ("Africa", ["DZ"; "NG"; "ZA"; "SN-GM"]); ("Europe", ["DE"; "FR"]) ].

Definition sample_continent_regions : dict (list string) :=
  [ ("NAR", ["DZ"; "EG"; "LY"; "MA"; "TN"]); ("TEST", ["NG"; "NE"]) ].

Definition sample_create_country_list :=
  create_country_list sample_world_iso sample_continent_regions
    (nodup string_dec).

End CountryList.

(** ** [modify_commodity], [aggregate_fuels] and [get_conv_factors] *)

Module Commodity.

(** The characters that [str.strip()] removes, among the ASCII ones: tab
    to carriage return, the four separators 28 to 31, and the blank. *)
Definition is_space (c : ascii) : bool :=
  let n := N_of_ascii c in
  ((9 <=? n) && (n <=? 13) || (28 <=? n) && (n <=? 32))%N.

Fixpoint lstrip (s : string) : string :=
  match s with
  | EmptyString => EmptyString
  | String c s' => if is_space c then lstrip s' else s
  end.

Fixpoint rstrip (s : string) : string :=
  match s with
  | EmptyString => EmptyString
  | String c s' =>
      match rstrip s' with
      | EmptyString => if is_space c then EmptyString else String c EmptyString
      | kept => String c kept
      end
  end.

Definition strip (s : string) : string := rstrip (lstrip s).

(** [str.casefold()] on ASCII text: the capital letters become small. *)
Definition lower (c : ascii) : ascii :=
  let n := N_of_ascii c in
  if ((65 <=? n) && (n <=? 90))%N then ascii_of_N (n + 32) else c.

Fixpoint casefold (s : string) : string :=
  match s with
  | EmptyString => EmptyString
  | String c s' => String (lower c) (casefold s')
  end.

Definition modify_commodity (commodity : string) : string :=
  let commodity :=
    if String.eqb (strip commodity) "Hrad coal" then "Hard coal"
    else if String.eqb (casefold (strip commodity)) "coke oven gas"
    then "Coke-oven gas"
    else if String.eqb (casefold (strip commodity)) "coke oven coke"
    then "Coke-oven coke"
    else if String.eqb (strip commodity) "Liquified Petroleum Gas (LPG)"
    then "Liquefied Petroleum Gas (LPG)"
    else if String.eqb (strip commodity) "Gas Oil/Diesel Oil"
    then "Gas Oil/ Diesel Oil"
    else if String.eqb (strip commodity)
              "Lignite brown coal- recoverable resources"
    then "Lignite brown coal - recoverable resources"
    else commodity in
  casefold (strip commodity).

(** What is returned when one of the six branches is taken. *)
Definition fixed_outputs : list string :=
  [ "hard coal"; "coke-oven gas"; "coke-oven coke";
    "liquefied petroleum gas (lpg)"; "gas oil/ diesel oil";
    "lignite brown coal - recoverable resources" ].

Fixpoint all_space (s : string) : bool :=
  match s with
  | EmptyString => true
  | String c s' => is_space c && all_space s'
  end.

(** The lists of [aggregate_fuels]. *)
Definition gas_fuels : list string :=
  [ "blast furnace gas"; "natural gas (including lng)";
    "natural gas liquids" ].

Definition oil_fuels : list string :=
  [ "bitumen"; "conventional crude oil"; "crude petroleum"; "ethane";
    "fuel oil"; "gas oil/ diesel oil"; "kerosene-type jet fuel";
    "liquefied petroleum gas (lpg)"; "lubricants"; "motor gasoline";
    "naphtha"; "patent fuel"; "petroleum coke"; "refinery gas" ].

Definition coal_fuels : list string :=
  [ "anthracite"; "brown coal"; "brown coal briquettes"; "coke-oven coke";
    "coke-oven gas"; "coking coal"; "gas coke"; "gasworks gas"; "hard coal";
    "lignite"; "other bituminous coal"; "peat"; "peat products";
    "sub-bituminous coal" ].

Definition biomass_fuels : list string :=
  [ "bagasse"; "fuelwood"; "biogases"; "biogasoline"; "biodiesel";
    "charcoal"; "black liquor" ].

Definition electricity : list string := [ "electricity" ].

Definition heat : list string :=
  [ "heat"; "direct use of geothermal heat";
    "direct use of solar thermal heat" ].

(** The six lists in the order of the returned tuple; [None] is the
    [np.nan] returned for a sector other than ["industry"]. *)
Definition aggregate_fuels (sector : string) : option (list (list string)) :=
  if String.eqb sector "industry" then
    Some [gas_fuels; oil_fuels; biomass_fuels; coal_fuels; heat; electricity]
  else None.

Definition conversion_factors_dict : list (string * Q) :=
  [ ("additives and oxygenates", 8333 # 1000000);
    ("anthracite", 5 # 1000);
    ("aviation gasoline", 1230 # 100000);
    ("bagasse", 2144 # 1000000);
    ("biodiesel", 1022 # 100000);
    ("biogasoline", 7444 # 1000000);
    ("bio jet kerosene", 11111 # 1000000);
    ("bitumen", 1117 # 100000);
    ("brown coal", 3889 # 1000000);
    ("brown coal briquettes", 575 # 100000);
    ("charcoal", 819 # 100000);
    ("coal tar", 7778 # 1000000);
    ("coke-oven coke", 78334 # 10000000);
    ("coke-oven gas", 277 # 1000000);
    ("coking coal", 7833 # 1000000);
    ("conventional crude oil", 1175 # 100000);
    ("crude petroleum", 11750 # 1000000);
    ("ethane", 1289 # 100000);
    ("fuel oil", 1122 # 100000);
    ("fuelwood", 254 # 100000);
    ("gas coke", 7326 # 1000000);
    ("gas oil/ diesel oil", 1194 # 100000);
    ("gasoline-type jet fuel", 1230 # 100000);
    ("hard coal", 7167 # 1000000);
    ("kerosene-type jet fuel", 1225 # 100000);
    ("lignite", 3889 # 1000000);
    ("liquefied petroleum gas (lpg)", 1313 # 100000);
    ("lubricants", 11166 # 1000000);
    ("motor gasoline", 1230 # 100000);
    ("naphtha", 1236 # 100000);
    ("natural gas", 25 # 100000);
    ("natural gas liquids", 1228 # 100000);
    ("oil shale", 247 # 100000);
    ("other bituminous coal", 5556 # 1000000);
    ("paraffin waxes", 1117 # 100000);
    ("patent fuel", 575 # 100000);
    ("peat", 271 # 100000);
    ("peat products", 271 # 100000);
    ("petroleum coke", 9028 # 1000000);
    ("refinery gas", 1375 # 100000);
    ("sub-bituminous coal", 5555 # 1000000) ].

Definition get_conv_factors (sector : string) : option (list (string * Q)) :=
  if String.eqb sector "industry" then Some conversion_factors_dict
  else None.

End Commodity.

(** ** [update_p_nom_max] *)

Module Generators.

(** A float: a number, an infinity, or a missing value. *)
Inductive float : Type := NaN | NegInf | Fin (q : Q) | PosInf.

(** [a <= b] on floats that are not missing. *)
Definition fle (a b : float) : bool :=
  match a, b with
  | NaN, _ | _, NaN => false
  | NegInf, _ => true
  | _, PosInf => true
  | Fin p, Fin q => Qle_bool p q
  | _, _ => false
  end.

(** The maximum of a row of two cells, missing values skipped. *)
Definition row_max (a b : float) : float :=
  match a, b with
  | NaN, _ => b
  | _, NaN => a
  | _, _ => if fle b a then a else b
  end.

Record generator : Type :=
  { name : string; p_nom_min : float; p_nom_max : float }.

(** [n.generators.p_nom_max = n.generators[["p_nom_min", "p_nom_max"]].max(1)]
    on the table of generators. *)
Definition update_p_nom_max (generators : list generator) : list generator :=
  map (fun g => {| name := name g; p_nom_min := p_nom_min g;
                   p_nom_max := row_max (p_nom_min g) (p_nom_max g) |})
      generators.

Definition sample_generators : list generator :=
  [ {| name := "MA 0 solar"; p_nom_min := Fin 120; p_nom_max := Fin 100 |};
    {| name := "MA 0 onwind"; p_nom_min := Fin 0; p_nom_max := PosInf |};
    {| name := "MA 1 solar"; p_nom_min := Fin 30; p_nom_max := NaN |} ].

End Generators.

(** ** [get_transform_and_shape] *)

Module NaturaGrid.

(** [rio.Affine(a, b, c, d, e, f)]: pixel (col, row) is mapped to
    [(a * col + b * row + c, d * col + e * row + f)]. *)
Record affine : Type :=
  { af_a : Q; af_b : Q; af_c : Q; af_d : Q; af_e : Q; af_f : Q }.

Definition apply (t : affine) (col row : Q) : Q * Q :=
  (af_a t * col + af_b t * row + af_c t, af_d t * col + af_e t * row + af_f t)%Q.

(** [x // res] for a float [x] and an integer resolution [res] (the
    script calls the function with [res=100]).  Python computes it from
    [fmod(x, res)], which is exact, and the quotient of the multiple of
    [res] that remains: that multiple and its quotient are integers, which
    a float holds exactly up to 2^53, so the result is the floor of the
    exact quotient. *)
Definition floor_div (x : Q) (res : Z) : Q :=
  inject_Z (Qfloor (x / inject_Z res)).

(** [int(q)]: the integer part, towards zero. *)
Definition int (q : Q) : Z := Z.quot (Qnum q) (Zpos (Qden q)).

(** The bounds on which the float operations of the function are exact:
    every product with [res] that is formed stays below 2^53 in size. *)
Definition in_exact_range (b : Q) (res : Z) : Prop :=
  (Qabs b + inject_Z res <= inject_Z (2 ^ 52))%Q.

(** [bounds] is (left, bottom, right, top).  [None] stands for the
    [ZeroDivisionError] of [//] when [res] is zero. *)
Definition get_transform_and_shape (bounds : Q * Q * Q * Q) (res : Z)
    : option (affine * (Z * Z)) :=
  if (res =? 0)%Z then None
  else
    let '(b0, b1, b2, b3) := bounds in
    let left := (floor_div b0 res * inject_Z res)%Q in
    let bottom := (floor_div b1 res * inject_Z res)%Q in
    let right := ((floor_div b2 res + 1) * inject_Z res)%Q in
    let top := ((floor_div b3 res + 1) * inject_Z res)%Q in
    let shape :=
      (int (floor_div (top - bottom) res),
       int ((right - left) / inject_Z res)) in
    Some ({| af_a := inject_Z res; af_b := 0; af_c := left;
             af_d := 0; af_e := - inject_Z res; af_f := top |}, shape).

End NaturaGrid.

(** ** [attach_hydrogen_pipelines]: the pipelines that are added *)

Module HydrogenPipelines.

(** A row of [candidates]: the columns [bus0], [bus1] and [length] of a
    line or of a DC link. *)
Record pipe : Type := { bus0 : string; bus1 : string; length : Q }.

Definition candidates (n : Topology.network) : list pipe :=
  map (fun l => {| bus0 := Topology.ln_bus0 l; bus1 := Topology.ln_bus1 l;
                   length := Topology.ln_length l |}) (Topology.lines n)
  ++ map (fun l => {| bus0 := Topology.lk_bus0 l;
                      bus1 := Topology.lk_bus1 l;
                      length := Topology.lk_length l |})
       (filter (fun l => String.eqb (Topology.lk_carrier l) "DC")
          (Topology.links n)).

(** A row of [np.sort(candidates[["bus0", "bus1"]])]: the two buses in
    increasing order. *)
Definition sorted_pair (c : pipe) : Topology.key :=
  if String.ltb (bus1 c) (bus0 c) then (bus1 c, bus0 c)
  else (bus0 c, bus1 c).

Definition seen_before (k : Topology.key) (seen : list Topology.key) : bool :=
  existsb (Topology.key_eqb k) seen.

(** [candidates[~pd.DataFrame(...).duplicated()]]: a row is kept unless an
    earlier row has the same sorted pair. *)
Fixpoint keep_first (seen : list Topology.key) (cs : list pipe) : list pipe :=
  match cs with
  | [] => []
  | c :: rest =>
      if seen_before (sorted_pair c) seen then keep_first seen rest
      else c :: keep_first (sorted_pair c :: seen) rest
  end.

Definition h2_links (n : Topology.network) : list pipe :=
  keep_first [] (candidates n).

(** The index given to a row of [h2_links]. *)
Definition h2_name (c : pipe) : string :=
  "H2 pipeline " ++ bus0 c ++ "-" ++ bus1 c.

(** The links handed to [n.madd], one for each row of [h2_links]. *)
Record h2_link : Type :=
  { name : string; link_bus0 : string; link_bus1 : string;
    p_min_pu : Q; p_nom_extendable : bool; link_length : Q;
    capital_cost : Q; carrier : string }.

Definition new_link (capital_cost_per_length : Q) (c : pipe) : h2_link :=
  {| name := h2_name c;
     link_bus0 := bus0 c ++ " H2";
     link_bus1 := bus1 c ++ " H2";
     p_min_pu := - (1);
     p_nom_extendable := true;
     link_length := length c;
     capital_cost := (capital_cost_per_length * length c)%Q;
     carrier := "H2 pipeline" |}.

Inductive outcome : Type :=
| NotRequested
| AssertionError
| Added (links : list h2_link).

(** [d.get(key, [])] *)
Definition get_list (v : option (list string)) : list string :=
  match v with Some l => l | None => [] end.

Definition contains_name (name : string) (l : list string) : bool :=
  existsb (String.eqb name) l.

(** The function up to the call of [n.madd]: what it adds to the network.
    [ext_link] and [ext_store] are the entries ["Link"] and ["Store"] of
    [extendable_carriers], [capital_cost_per_length] is
    [costs.at["H2 pipeline", "capital_cost"]].  (The call of
    [set_length_based_efficiency] that ends the function is the function
    of [LengthEfficiency], on the table with these links in it.) *)
Definition attach_hydrogen_pipelines (n : Topology.network)
    (capital_cost_per_length : Q)
    (ext_link ext_store : option (list string)) : outcome :=
  let as_stores := get_list ext_store in
  if negb (contains_name "H2 pipeline" (get_list ext_link)) then NotRequested
  else if negb (contains_name "H2" as_stores) then AssertionError
  else Added (map (new_link capital_cost_per_length) (h2_links n)).

(** The row that [n.madd] puts in [n.links] for a new link, in the columns
    that [set_length_based_efficiency] reads and writes; [efficiency] takes
    the default of the component, [bus2] and [efficiency2] hold nothing. *)
Definition madd_row (l : h2_link) : LengthEfficiency.link :=
  {| LengthEfficiency.name := name l;
     LengthEfficiency.carrier := carrier l;
     LengthEfficiency.bus0 := link_bus0 l;
     LengthEfficiency.length := Q2R (link_length l);
     LengthEfficiency.efficiency := 1%R;
     LengthEfficiency.bus2 := None;
     LengthEfficiency.efficiency2 := None |}.

(** (For a network without candidates the model adds no link; what
    pandas' [apply] does on a frame without rows is not modelled.) *)
Definition sample_network : Topology.network :=
  {| Topology.lines :=
       [ {| Topology.ln_bus0 := "MA 0"; Topology.ln_bus1 := "MA 1";
            Topology.ln_length := 10 |};
         {| Topology.ln_bus0 := "MA 2"; Topology.ln_bus1 := "MA 1";
            Topology.ln_length := 20 |};
         {| Topology.ln_bus0 := "MA 1"; Topology.ln_bus1 := "MA 0";
            Topology.ln_length := 12 |} ];
     Topology.links :=
       [ {| Topology.lk_carrier := "DC"; Topology.lk_bus0 := "MA 1";
            Topology.lk_bus1 := "MA 2"; Topology.lk_length := 25;
            Topology.lk_underwater_fraction := None |};
         {| Topology.lk_carrier := "H2 electrolysis";
            Topology.lk_bus0 := "MA 0"; Topology.lk_bus1 := "MA 0 H2";
            Topology.lk_length := 0;
            Topology.lk_underwater_fraction := None |} ];
     Topology.links_has_underwater_fraction := false |}.

End HydrogenPipelines.

(** ** [cycling_shift] *)

Module CyclingShift.

(** [np.roll(a, steps)]: the element at position [i] moves to position
    [(i + steps) mod n], so position [i] of the result holds the element
    that was at [(i - steps) mod n]. *)
Definition roll {A : Type} (l : list A) (steps : Z) : list A :=
  match l with
  | [] => []
  | d :: _ =>
      let n := Z.of_nat (List.length l) in
      map (fun i => nth (Z.to_nat ((Z.of_nat i - steps) mod n)) l d)
          (seq 0 (List.length l))
  end.

Definition reindex_msg : string :=
  "cannot reindex on an axis with duplicate labels".

Section Frame.

(** Index labels with their equality, the type of a row of values, and the
    row of missing values that [reindex] gives a label it does not find. *)
Variable K : Type.
Variable K_eq_dec : forall a b : K, {a = b} + {a <> b}.
Variable V : Type.
Variable nan : V.

(** A frame is its rows in order, each with its index label. *)
Definition frame : Type := list (K * V).

Definition lookup (df : frame) (k : K) : V :=
  match find (fun row => if K_eq_dec (fst row) k then true else false) df with
  | Some row => snd row
  | None => nan
  end.

Fixpoint has_duplicates (l : list K) : bool :=
  match l with
  | [] => false
  | k :: rest =>
      existsb (fun k' => if K_eq_dec k k' then true else false) rest
      || has_duplicates rest
  end.

(** [df.reindex(index=new_index).values]: the rows in the order of
    [new_index]; the same index leaves the frame as it is, and otherwise
    the labels have to be unique. *)
Definition reindex_values (df : frame) (new_index : list K)
    : Py.result (list V) :=
  if list_eq_dec K_eq_dec new_index (map fst df) then Py.Ok (map snd df)
  else if has_duplicates (map fst df)
  then Py.Raise (Py.ValueError reindex_msg)
  else Py.Ok (map (lookup df) new_index).

(** A series or data frame: its rows, and what [df.values] hands out.
    For a series, and for a frame whose columns share one type and are
    stored in one block, [df.values] is the array that holds the data, and
    writing into it changes [df]; for a frame with columns of different
    types it is an array built for the occasion, and writing into it
    changes nothing else. *)
Record dataframe : Type :=
  { data : frame; values_is_view : bool }.

(** [df.copy()] keeps the rows and the layout.  The values of the
    reindexed frame are computed (which may raise), and assigned into
    [df.values]: the copy then has its values replaced, row for row, when
    [df.values] is a view, and is as it was otherwise; the index is left
    as it is. *)
Definition cycling_shift (df : dataframe) (steps : Z)
    : Py.result dataframe :=
  let new_index := roll (map fst (data df)) steps in
  values <- reindex_values (data df) new_index ;;
  Py.Ok {| data := if values_is_view df
                   then combine (map fst (data df)) values
                   else data df;
           values_is_view := values_is_view df |}.

End Frame.

Arguments data {K V} d.
Arguments values_is_view {K V} d.

(** An hourly series, and a table with a column of numbers and one of
    texts. *)
Definition sample_series : dataframe string Z :=
  {| data := [ ("00:00", 10); ("01:00", 11); ("02:00", 12); ("03:00", 13) ];
     values_is_view := true |}.

Definition sample_mixed : dataframe string (Z * string) :=
  {| data := [ ("00:00", (10, "a")); ("01:00", (11, "b")) ];
     values_is_view := false |}.

End CyclingShift.

(** ** [get_gadm_layer]: the frames that are read *)

Module GadmFrames.

Definition concat_list_msg : string :=
  "cannot concatenate object of type '<class 'list'>'; only Series and DataFrame objs are valid".

Definition concat_empty_msg : string := "No objects to concatenate".

Definition concat_frame_msg : string :=
  "first argument must be an iterable of pandas objects, you passed an object of type DataFrame".

Definition index_range_msg : string := "list index out of range".

Section IO.

(** The frames of geopandas, the errors that reading can end in, and the
    steps of the loop body that leave the program: [download_gadm] (the
    path of the geopackage), [fiona.listlayers], [gpd.read_file] for the
    layer of a country, and the two column assignments ([GID_0] rewritten
    with [three_2_two_digits_country], [GADM_ID] copied from the column of
    the layer).  [concat_frames] is what [pd.concat] builds from frames
    (the flag is [ignore_index]); [frame_crs] and [set_crs] read and set
    the reference system of a frame. *)
Variable frame : Type.
Variable crs : Type.
Variable io_error : Type.
Variable download_gadm : string -> bool -> bool -> io_error + string.
Variable listlayers : string -> io_error + list string.
Variable read_layer : string -> string -> Z -> io_error + frame.
Variable set_columns : frame -> Z -> io_error + frame.
Variable concat_frames : list frame -> bool -> frame.
Variable frame_crs : frame -> crs.
Variable set_crs : frame -> crs -> frame.

Inductive exn : Type :=
| TypeError (msg : string)
| ValueError (msg : string)
| IndexError (msg : string)
| KeyError (key : Z)
| IOError (e : io_error).

Inductive outcome (A : Type) : Type :=
| Returns (a : A)
| Raises (e : exn).

Arguments Returns {A} a.
Arguments Raises {A} e.

Definition bind {A B : Type} (r : outcome A) (k : A -> outcome B)
    : outcome B :=
  match r with
  | Returns a => k a
  | Raises e => Raises e
  end.

Definition step {A B : Type} (r : io_error + A) (k : A -> outcome B)
    : outcome B :=
  match r with
  | inl e => Raises (IOError e)
  | inr a => k a
  end.

(** The values that the variable [geodf_list] and the elements of the
    argument of [pd.concat] take: a Python list of frames, or a frame. *)
Inductive pyobj : Type :=
| PyList (items : list frame)
| PyFrame (df : frame).

Definition as_frame (o : pyobj) : option frame :=
  match o with
  | PyFrame df => Some df
  | PyList _ => None
  end.

(** The frames of a list of objects, when every object is a frame. *)
Fixpoint all_frames (objs : list pyobj) : option (list frame) :=
  match objs with
  | [] => Some []
  | o :: rest =>
      match as_frame o, all_frames rest with
      | Some df, Some dfs => Some (df :: dfs)
      | _, _ => None
      end
  end.

(** [pd.concat(objs, ignore_index=...)] on a Python list of objects: an
    empty list is refused with [ValueError], an object that is neither a
    Series nor a DataFrame with [TypeError]. *)
Definition pd_concat (objs : list pyobj) (ignore_index : bool)
    : outcome frame :=
  match objs with
  | [] => Raises (ValueError concat_empty_msg)
  | _ =>
      match all_frames objs with
      | Some dfs => Returns (concat_frames dfs ignore_index)
      | None => Raises (TypeError concat_list_msg)
      end
  end.

(** [pd.concat(geodf_list, ignore_index=True)]: the first argument is the
    value of [geodf_list] itself; a frame in that place is refused. *)
Definition pd_concat_of (geodf_list : pyobj) (ignore_index : bool)
    : outcome frame :=
  match geodf_list with
  | PyList items => pd_concat (map PyFrame items) ignore_index
  | PyFrame _ => Raises (TypeError concat_frame_msg)
  end.

(** [geodf_list[0]]: the first item of a list; on a frame the column
    named [0], which the frames read here do not have. *)
Definition getitem0 (geodf_list : pyobj) : outcome frame :=
  match geodf_list with
  | PyList [] => Raises (IndexError index_range_msg)
  | PyList (df :: _) => Returns df
  | PyFrame _ => Raises (KeyError 0)
  end.

(** The loop over [country_list].  [layer_id] and [geodf_list] are local
    variables that the body reassigns: [geodf_list] starts as the empty
    Python list and the last statement of the body assigns it
    [pd.concat([geodf_list, geodf_temp])]. *)
Fixpoint loop (country_list : list string) (layer_id : Z)
    (update outlogging : bool) (geodf_list : pyobj) : outcome pyobj :=
  match country_list with
  | [] => Returns geodf_list
  | country_code :: rest =>
      step (download_gadm country_code update outlogging) (fun file_gpkg =>
      step (listlayers file_gpkg) (fun list_layers =>
      let '(layer_id', code_layer) :=
        GadmLayer.select_layer layer_id list_layers in
      step (read_layer file_gpkg country_code code_layer) (fun geodf_temp =>
      step (set_columns geodf_temp code_layer) (fun geodf_temp' =>
      bind (pd_concat [geodf_list; PyFrame geodf_temp'] false)
        (fun concatenated =>
      loop rest layer_id' update outlogging (PyFrame concatenated))))))
  end.

Definition get_gadm_layer (country_list : list string) (layer_id : Z)
    (update outlogging : bool) : outcome frame :=
  bind (loop country_list layer_id update outlogging (PyList []))
    (fun geodf_list =>
  bind (pd_concat_of geodf_list true) (fun geodf_gadm =>
  bind (getitem0 geodf_list) (fun first =>
  Returns (set_crs geodf_gadm (frame_crs first))))).

End IO.

Arguments TypeError {io_error} msg.
Arguments ValueError {io_error} msg.
Arguments IndexError {io_error} msg.
Arguments KeyError {io_error} key.
Arguments IOError {io_error} e.
Arguments Returns {io_error A} a.
Arguments Raises {io_error A} e.
Arguments PyList {frame} items.
Arguments PyFrame {frame} df.

(** *** A small reader to run the function on

    A frame is the list of the region identifiers it holds; every country
    has a geopackage with three layers, and the layer [k] of country [c]
    holds the one region [c.k]. *)
Definition sample_frame : Type := list string.

Definition sample_download (country_code : string) (update outlogging : bool)
    : unit + string :=
  inr (country_code ++ ".gpkg").

Definition sample_listlayers (file_gpkg : string) : unit + list string :=
  inr ["0"; "1"; "2"].

Definition sample_read_layer (file_gpkg country_code : string)
    (code_layer : Z) : unit + sample_frame :=
  inr [country_code ++ "." ++ (if code_layer =? 0 then "0"
                               else if code_layer =? 1 then "1" else "2")].

Definition sample_get_gadm_layer :=
  get_gadm_layer sample_frame nat unit sample_download sample_listlayers
    sample_read_layer (fun df _ => inr df)
    (fun dfs _ => List.concat dfs) (fun _ => 4326%nat) (fun df _ => df).

End GadmFrames.

(** ** [sets_path_to_root] *)

Module RepoRoot.

(** The working directory: the names of the directories from the root
    down; the root itself is the empty list. *)
Definition path : Type := list string.

(** [pathlib.Path(".").absolute().name]; the root has the empty name. *)
Definition get_basename_abs_path (cwd : path) : string :=
  last cwd EmptyString.

(** [change_to_script_dir(".")]: to the parent of the working directory
    (the root is its own parent). *)
Definition change_to_script_dir (cwd : path) : path := removelast cwd.

(** What the function prints. *)
Inductive message : Type :=
| RepositoryPath (repo_path : path)
| FoldersUp (count : Z)
| CantFind.

(** The [while n >= 0] loop; [passes] bounds the number of passes, [n] is
    the loop variable when the test is made, [printed] what has been
    printed so far. *)
Fixpoint search (repo_name : string) (n0 : Z) (passes : nat) (n : Z)
    (cwd : path) (printed : list message) : path * list message :=
  match passes with
  | O => (cwd, printed)
  | S passes' =>
      if n <? 0 then (cwd, printed)
      else
        let n := n - 1 in
        if String.eqb repo_name (get_basename_abs_path cwd) then
          (cwd,
           (printed ++ [RepositoryPath cwd; FoldersUp (n0 - 1 - n)])%list)
        else if n =? 0 then
          search repo_name n0 passes' n cwd (printed ++ [CantFind])%list
        else
          search repo_name n0 passes' n (change_to_script_dir cwd) printed
  end.

(** The working directory at the end and the lines printed.  The loop
    variable goes down by one in each pass, so [n + 1] passes are all
    there can be. *)
Definition sets_path_to_root (root_directory_name : string) (n : Z)
    (cwd : path) : path * list message :=
  search root_directory_name n (Z.to_nat (n + 1)) n cwd [].

(** [k] directories up. *)
Fixpoint up (k : nat) (cwd : path) : path :=
  match k with
  | O => cwd
  | S k' => up k' (change_to_script_dir cwd)
  end.

Definition sample_cwd : path :=
  ["home"; "user"; "pypsa-earth"; "scripts"; "notebooks"].

End RepoRoot.

(** ** Theorems *)

Module GadmLayerFacts.
Import GadmLayer.

Lemma layer_guard_false (layer_id n : Z) : layer_guard layer_id n = false.
Proof.
  unfold layer_guard. cbn zeta. rewrite Z.lor_0_l.
  rewrite Z.ltb_irrefl. reflexivity.
Qed.

Lemma select_layer_eq (layer_id : Z) (list_layers : list string) :
  select_layer layer_id list_layers =
  (layer_id, np_mod layer_id (Z.of_nat (List.length list_layers))).
Proof. unfold select_layer. cbn zeta. now rewrite layer_guard_false. Qed.

Lemma code_layers_eq (layer_id : Z) (layers : list (list string)) :
  code_layers layer_id layers =
  map (fun l => np_mod layer_id (Z.of_nat (List.length l))) layers.
Proof.
  induction layers as [|l rest IH]; [reflexivity|].
  cbn [code_layers map]. rewrite select_layer_eq. now rewrite IH.
Qed.

(** C10 (as amended). For every integer [layer_id] and every non-empty
    layer list of length [n], the guard of [get_gadm_layer] is false,
    [layer_id] is left as it was, and the selected layer is
    [layer_id mod n] with the sign of the divisor: it lies in [0, n), [-1]
    selects the last layer [n - 1], and a [layer_id >= n] wraps around to
    [layer_id mod n], which is the last layer exactly when [layer_id] is
    congruent to [n - 1] modulo [n]. *)
Theorem get_gadm_layer_wraps (layer_id : Z) (list_layers : list string) :
  list_layers <> [] ->
  let n := Z.of_nat (List.length list_layers) in
  layer_guard layer_id n = false
  /\ select_layer layer_id list_layers = (layer_id, layer_id mod n)
  /\ 0 <= code_layer layer_id list_layers < n
  /\ code_layer (-1) list_layers = n - 1
  /\ (n <= layer_id ->
      code_layer layer_id list_layers = layer_id mod n
      /\ (code_layer layer_id list_layers = n - 1 <->
          (layer_id - (n - 1)) mod n = 0))
  /\ code_layer n list_layers = 0.
Proof.
  intros Hne n.
  assert (Hn : 0 < n).
  { subst n. destruct list_layers; [congruence | cbn [List.length]; lia]. }
  assert (Hmod : forall a, np_mod a n = a mod n).
  { intros a. unfold np_mod. destruct (Z.eqb_spec n 0); [lia | reflexivity]. }
  assert (Hsel : forall a, code_layer a list_layers = a mod n).
  { intros a. unfold code_layer. rewrite select_layer_eq. cbn [snd].
    apply Hmod. }
  split; [apply layer_guard_false|].
  split; [rewrite select_layer_eq; fold n; now rewrite Hmod|].
  split; [rewrite Hsel; apply Z.mod_pos_bound; exact Hn|].
  split.
  { rewrite Hsel. replace (-1) with ((n - 1) + (-1) * n) by lia.
    rewrite Z.mod_add by lia. apply Z.mod_small. lia. }
  split.
  { intros _. split; [apply Hsel|]. rewrite Hsel. split.
    - intros H. replace (layer_id - (n - 1))
        with ((layer_id mod n - (n - 1)) + (layer_id / n) * n).
      + rewrite Z.mod_add by lia. rewrite H. now rewrite Z.sub_diag.
      + pose proof (Z.div_mod layer_id n ltac:(lia)). lia.
    - intros H. apply Z.mod_divide in H; [|lia]. destruct H as [k Hk].
      replace layer_id with ((n - 1) + k * n) by lia.
      rewrite Z.mod_add by lia. apply Z.mod_small. lia. }
  rewrite Hsel. apply Z.mod_same. lia.
Qed.

Lemma get_gadm_layer_wraps_witness :
  code_layer 3 ["gadm36_MAR_0"; "gadm36_MAR_1"; "gadm36_MAR_2"] = 0
  /\ code_layer (-1) ["gadm36_MAR_0"; "gadm36_MAR_1"; "gadm36_MAR_2"] = 2.
Proof.
  pose proof (get_gadm_layer_wraps 3
    ["gadm36_MAR_0"; "gadm36_MAR_1"; "gadm36_MAR_2"] ltac:(discriminate))
    as H.
  cbv zeta in H. destruct H as (_ & _ & _ & Hlast & _ & Hn).
  split; [exact Hn | exact Hlast].
Defined.

(** The claim C10 as written says that a [layer_id >= n] does not select
    the last layer.  The wrap-around lands on the last layer for every
    [layer_id] congruent to [n - 1]: with three layers, [layer_id = 5]
    selects layer 2, and with a single layer every [layer_id] selects it. *)
Lemma large_layer_id_selects_last :
  (Z.of_nat (List.length ["gadm36_MAR_0"; "gadm36_MAR_1"; "gadm36_MAR_2"])
     <= 5
   /\ code_layer 5 ["gadm36_MAR_0"; "gadm36_MAR_1"; "gadm36_MAR_2"]
      = Z.of_nat
          (List.length ["gadm36_MAR_0"; "gadm36_MAR_1"; "gadm36_MAR_2"]) - 1)
  /\ (Z.of_nat (List.length ["gadm36_MAR_0"]) <= 7
      /\ code_layer 7 ["gadm36_MAR_0"]
         = Z.of_nat (List.length ["gadm36_MAR_0"]) - 1).
Proof. split; split; [cbn; lia | reflexivity | cbn; lia | reflexivity]. Qed.

End GadmLayerFacts.

Module CountryCodesFacts.
Import CountryCodes.

Section Converter.

Variable coco_convert : string -> classification -> string.

(** The recursive equations of the source hold for the definitions. *)
Lemma two_2_three_digits_country_eq (two_code_country : string) :
  two_2_three_digits_country coco_convert two_code_country =
  if String.eqb two_code_country "SN-GM" then
    two_2_three_digits_country coco_convert "SN" ++ "-"
    ++ two_2_three_digits_country coco_convert "GM"
  else coco_convert two_code_country ISO3.
Proof. reflexivity. Qed.

Lemma three_2_two_digits_country_eq (three_code_country : string) :
  three_2_two_digits_country coco_convert three_code_country =
  if String.eqb three_code_country "SEN-GMB" then
    three_2_two_digits_country coco_convert "SN" ++ "-"
    ++ three_2_two_digits_country coco_convert "GM"
  else coco_convert three_code_country ISO2.
Proof. reflexivity. Qed.

Lemma eqb_length_neq (s t : string) :
  String.length s <> String.length t -> String.eqb s t = false.
Proof. intros H. apply String.eqb_neq. intros ->. now apply H. Qed.

End Converter.

(** C8. For every country of the table, that is for every valid ISO3 code
    [X], converting [X] to two letters and back gives [X]; the composite
    ["SEN-GMB"] goes through the special-case branch of each function:
    ["SEN-GMB"] to ["SN-GM"] and ["SN-GM"] back to ["SEN-GMB"]. *)
Theorem country_code_round_trip
    (coco_convert : string -> classification -> string)
    (countries : list country) :
  converter_agrees coco_convert countries ->
  In senegal countries ->
  In gambia countries ->
  (forall c, In c countries ->
     two_2_three_digits_country coco_convert
       (three_2_two_digits_country coco_convert (iso3 c)) = iso3 c)
  /\ three_2_two_digits_country coco_convert "SEN-GMB" = "SN-GM"
  /\ two_2_three_digits_country coco_convert "SN-GM" = "SEN-GMB"
  /\ two_2_three_digits_country coco_convert
       (three_2_two_digits_country coco_convert "SEN-GMB") = "SEN-GMB".
Proof.
  intros Hco Hsn Hgm.
  destruct (Hco _ Hsn) as (_ & _ & _ & Hsn3 & Hsn2).
  destruct (Hco _ Hgm) as (_ & _ & _ & Hgm3 & Hgm2).
  cbn [senegal gambia iso2 iso3] in Hsn3, Hsn2, Hgm3, Hgm2.
  assert (H32 : three_2_two_digits_country coco_convert "SEN-GMB" = "SN-GM").
  { unfold three_2_two_digits_country. cbn [String.eqb Ascii.eqb Bool.eqb].
    now rewrite Hsn2, Hgm2. }
  assert (H23 : two_2_three_digits_country coco_convert "SN-GM" = "SEN-GMB").
  { unfold two_2_three_digits_country. cbn [String.eqb Ascii.eqb Bool.eqb].
    now rewrite Hsn3, Hgm3. }
  split; [|split; [exact H32|split; [exact H23|now rewrite H32]]].
  intros c Hc. destruct (Hco _ Hc) as (L2 & L3 & Hto2 & Hto3 & _).
  unfold three_2_two_digits_country.
  rewrite eqb_length_neq by (rewrite L3; discriminate).
  rewrite Hto2. unfold two_2_three_digits_country.
  rewrite eqb_length_neq by (rewrite L2; discriminate).
  exact Hto3.
Qed.

Lemma sample_table_agrees :
  converter_agrees (table_convert sample_table) sample_table.
Proof.
  intros c Hc. cbn in Hc.
  repeat (destruct Hc as [<- | Hc]; [repeat split; reflexivity|]).
  contradiction.
Qed.

Lemma country_code_round_trip_witness :
  two_2_three_digits_country (table_convert sample_table)
    (three_2_two_digits_country (table_convert sample_table) "MAR") = "MAR"
  /\ two_2_three_digits_country (table_convert sample_table)
       (three_2_two_digits_country (table_convert sample_table) "SEN-GMB")
     = "SEN-GMB".
Proof.
  destruct (country_code_round_trip (table_convert sample_table) sample_table
              sample_table_agrees
              (or_introl eq_refl) (or_intror (or_introl eq_refl)))
    as (Hall & _ & _ & Hsg).
  split; [|exact Hsg].
  apply (Hall {| iso2 := "MA"; iso3 := "MAR" |}).
  cbn. tauto.
Defined.

End CountryCodesFacts.

Module TopologyFacts.
Import Topology.

(** *** The order of strings *)

Lemma ltb_asym (a b : string) :
  String.ltb a b = true -> String.ltb b a = false.
Proof.
  unfold String.ltb. rewrite (String.compare_antisym b a).
  destruct (String.compare a b); cbn; congruence.
Qed.

Lemma ltb_irrefl (a : string) : String.ltb a a = false.
Proof.
  destruct (String.ltb a a) eqn:E; [|reflexivity].
  pose proof (ltb_asym _ _ E). congruence.
Qed.

Lemma ltb_leb (a b : string) :
  String.ltb a b = false -> String.leb b a = true.
Proof.
  unfold String.ltb, String.leb. rewrite (String.compare_antisym a b).
  destruct (String.compare b a); cbn; congruence.
Qed.

Lemma leb_neq_ltb (a b : string) :
  String.leb a b = true -> a <> b -> String.ltb a b = true.
Proof.
  unfold String.ltb, String.leb. intros H Hne.
  destruct (String.compare a b) eqn:E; try congruence.
  apply String.compare_eq_iff in E. contradiction.
Qed.

(** *** Normalisation and grouping *)

Lemma normalize_ordered (cs : list edge) (c : edge) :
  In c (normalize cs) -> String.leb (bus0 c) (bus1 c) = true.
Proof.
  unfold normalize. rewrite in_app_iff, in_map_iff.
  intros [H | (c' & <- & H)]; apply filter_In in H; destruct H as [_ H].
  - unfold positive_order in H. apply ltb_leb. now apply ltb_asym.
  - apply negb_true_iff in H. cbn [swap_edge bus0 bus1].
    now apply ltb_leb.
Qed.

Lemma normalize_origin (cs : list edge) (c : edge) :
  In c (normalize cs) ->
  exists c', In c' cs
    /\ ((bus0 c' = bus0 c /\ bus1 c' = bus1 c)
        \/ (bus0 c' = bus1 c /\ bus1 c' = bus0 c)).
Proof.
  unfold normalize. rewrite in_app_iff, in_map_iff.
  intros [H | (c' & <- & H)]; apply filter_In in H; destruct H as [H _].
  - exists c. auto.
  - exists c'. cbn. auto.
Qed.

Lemma In_insert_key (k k' : key) (ks : list key) :
  In k' (insert_key k ks) -> k' = k \/ In k' ks.
Proof.
  induction ks as [|k0 rest IH]; cbn.
  - intuition.
  - destruct (key_eqb k k0); [cbn; intuition|].
    destruct (key_ltb k k0); cbn; intuition.
Qed.

Lemma In_group_keys (cs : list edge) (k : key) :
  In k (group_keys cs) -> exists c, In c cs /\ key_of c = k.
Proof.
  unfold group_keys. induction cs as [|c rest IH]; cbn; [contradiction|].
  intros H. apply In_insert_key in H. destruct H as [-> | H].
  - exists c. auto.
  - destruct (IH H) as (c' & Hin & Hk). exists c'. auto.
Qed.

Lemma In_groupby_mean (prefix connector : string) (cs : list edge) (r : row) :
  In r (groupby_mean prefix connector cs) ->
  exists c, In c cs /\ bus0 c = r_bus0 r /\ bus1 c = r_bus1 r
            /\ index r = prefix ++ r_bus0 r ++ connector ++ r_bus1 r.
Proof.
  unfold groupby_mean. rewrite in_map_iff. intros (k & <- & Hk).
  apply In_group_keys in Hk. destruct Hk as (c & Hc & <-).
  exists c. cbn. auto.
Qed.

(** C5 (as amended). With [bidirectional=True], every row of the returned
    topology has [bus0 <= bus1] in the order of strings, and [bus0 < bus1]
    when its two buses differ; the row stands for a raw edge between the
    same two buses, in one direction or the other, and its index is
    [prefix + bus0 + connector + bus1]. *)
Theorem canonical_rows_ordered (prefix connector : string) (n : network)
    (r : row) :
  In r (create_network_topology prefix connector n true) ->
  String.leb (r_bus0 r) (r_bus1 r) = true
  /\ (r_bus0 r <> r_bus1 r -> String.ltb (r_bus0 r) (r_bus1 r) = true)
  /\ index r = prefix ++ r_bus0 r ++ connector ++ r_bus1 r
  /\ exists c, In c (raw_candidates n)
       /\ ((bus0 c = r_bus0 r /\ bus1 c = r_bus1 r)
           \/ (bus0 c = r_bus1 r /\ bus1 c = r_bus0 r)).
Proof.
  unfold create_network_topology. cbn [negb]. intros H.
  apply In_groupby_mean in H. destruct H as (c & Hc & H0 & H1 & Hidx).
  pose proof (normalize_ordered _ _ Hc) as Hle. rewrite H0, H1 in Hle.
  split; [exact Hle|]. split; [now apply leb_neq_ltb|].
  split; [exact Hidx|].
  destruct (normalize_origin _ _ Hc) as (c' & Hin & Hor).
  exists c'. rewrite <- H0, <- H1. auto.
Qed.

Lemma canonical_rows_ordered_witness :
  In two_way_row (create_network_topology "" " <-> " two_way_network true)
  /\ String.leb (r_bus0 two_way_row) (r_bus1 two_way_row) = true
  /\ String.ltb (r_bus0 two_way_row) (r_bus1 two_way_row) = true.
Proof.
  assert (Hin : In two_way_row
                  (create_network_topology "" " <-> " two_way_network true))
    by (left; vm_compute; reflexivity).
  destruct (canonical_rows_ordered "" " <-> " two_way_network two_way_row Hin)
    as (Hle & Hlt & _).
  split; [exact Hin|]. split; [exact Hle|].
  apply Hlt. discriminate.
Defined.

(** The claim C5 as written, with the strict order for every row, fails
    for a line whose two ends are the same bus: its row has
    [bus0 = bus1]. *)
Lemma self_loop_not_strict :
  create_network_topology "" " <-> " self_loop_network true =
    [ {| index := "MA 0 <-> MA 0"; r_bus0 := "MA 0"; r_bus1 := "MA 0";
         r_length := 10; r_underwater_fraction := 0 |} ]
  /\ ~ (forall r,
         In r (create_network_topology "" " <-> " self_loop_network true) ->
         String.ltb (r_bus0 r) (r_bus1 r) = true).
Proof.
  split; [vm_compute; reflexivity|].
  intros H. specialize (H _ (or_introl eq_refl)). vm_compute in H.
  discriminate.
Qed.

(** *** The same connection entered in both directions *)

Lemma group_keys_pair (cs : list edge) (a b : string) :
  cs <> [] -> (forall c, In c cs -> key_of c = (a, b)) ->
  group_keys cs = [(a, b)].
Proof.
  unfold group_keys. induction cs as [|c rest IH]; [congruence|].
  intros _ Hall. cbn [map fold_right].
  rewrite (Hall c (or_introl eq_refl)).
  destruct rest as [|c' rest'].
  - reflexivity.
  - rewrite IH; [|discriminate|intros c0 H0; apply Hall; now right].
    cbn [insert_key]. unfold key_eqb. cbn [fst snd].
    now rewrite !String.eqb_refl.
Qed.

Lemma mean_two_tens : mean [10; 10]%Q = 10%Q.
Proof. reflexivity. Qed.

(** C4. When the candidate edges of the network are the two raw edges
    (A, B, length 10) and (B, A, length 10) with A < B, in either order and
    whichever of [n.lines] and the DC links each of them comes from, then
    with [bidirectional=True] the topology is exactly one row, with index
    [prefix + A + connector + B], [bus0 = A], [bus1 = B] and length 10, the
    mean of the two; with [bidirectional=False] it is exactly two rows, that
    row followed by its reverse, with [bus0 = B], [bus1 = A] and index
    [prefix + B + connector + A]. *)
Theorem two_way_edges_merge (prefix connector A B : string) (n : network)
    (uf1 uf2 : Q) :
  String.ltb A B = true ->
  let e1 := {| bus0 := A; bus1 := B; length := 10;
               underwater_fraction := uf1 |} in
  let e2 := {| bus0 := B; bus1 := A; length := 10;
               underwater_fraction := uf2 |} in
  raw_candidates n = [e1; e2] \/ raw_candidates n = [e2; e1] ->
  (exists r,
     create_network_topology prefix connector n true = [r]
     /\ index r = prefix ++ A ++ connector ++ B
     /\ r_bus0 r = A /\ r_bus1 r = B /\ r_length r = 10%Q)
  /\ (exists r r',
        create_network_topology prefix connector n false = [r; r']
        /\ index r = prefix ++ A ++ connector ++ B
        /\ r_bus0 r = A /\ r_bus1 r = B /\ r_length r = 10%Q
        /\ index r' = prefix ++ B ++ connector ++ A
        /\ r_bus0 r' = B /\ r_bus1 r' = A /\ r_length r' = 10%Q).
Proof.
  intros Hlt e1 e2 Hraw.
  pose proof (ltb_asym _ _ Hlt) as Hgt.
  assert (Hnorm : normalize (raw_candidates n) = [e1; swap_edge e2]).
  { destruct Hraw as [-> | ->]; unfold normalize, positive_order;
      cbn [filter bus0 bus1 e1 e2 negb map app];
      rewrite ?Hlt, ?Hgt; cbn [filter negb map app];
      rewrite ?Hlt, ?Hgt; reflexivity. }
  assert (Hgroup : groupby_mean prefix connector (normalize (raw_candidates n))
                   = [ {| index := make_index prefix connector A B;
                          r_bus0 := A; r_bus1 := B;
                          r_length := mean [10; 10]%Q;
                          r_underwater_fraction := mean [uf1; uf2] |} ]).
  { rewrite Hnorm. unfold groupby_mean.
    rewrite (group_keys_pair _ A B).
    - cbn [map filter]. unfold key_eqb, key_of, swap_edge, e1, e2.
      cbn [fst snd bus0 bus1]. rewrite !String.eqb_refl. reflexivity.
    - discriminate.
    - intros c [<- | [<- | []]]; reflexivity. }
  unfold create_network_topology. rewrite Hgroup. cbn [negb map app].
  split.
  - eexists. split; [reflexivity|]. cbn. repeat split; try reflexivity.
  - do 2 eexists. split; [reflexivity|]. cbn. repeat split; try reflexivity.
Qed.

Lemma two_way_edges_merge_witness :
  create_network_topology "" " <-> " two_way_network true = [two_way_row]
  /\ List.length (create_network_topology "" " <-> " two_way_network false)
     = 2%nat.
Proof.
  destruct (two_way_edges_merge "" " <-> " "MA 0" "MA 1" two_way_network 0 0
              eq_refl (or_introl eq_refl))
    as ((r & Hone & _) & (r1 & r2 & Htwo & _)).
  split; [reflexivity|]. now rewrite Htwo.
Defined.

End TopologyFacts.

Module LocateBusFacts.
Import LocateBus.

(** *** Comparison of distances *)

Lemma Qltb_lt (a b : Q) : Qltb a b = true <-> (a < b)%Q.
Proof.
  unfold Qltb. rewrite negb_true_iff. split.
  - intros H. apply Qnot_le_lt. intros Hle.
    apply Qle_bool_iff in Hle. congruence.
  - intros H. destruct (Qle_bool b a) eqn:E; [|reflexivity].
    apply Qle_bool_iff in E. exfalso. now apply (Qlt_not_le a b).
Qed.

Lemma Qltb_ge (a b : Q) : Qltb a b = false <-> (b <= a)%Q.
Proof.
  unfold Qltb. rewrite negb_false_iff. apply Qle_bool_iff.
Qed.

(** *** The built-in [min] with a key *)

Section MinBy.

Context {A : Type} (key : A -> Q).

Lemma min_by_head (m : A) (post : list A) :
  (forall a, In a post -> (key m <= key a)%Q) ->
  min_by key m post = m.
Proof.
  induction post as [|a post IH]; [reflexivity|].
  intros H. cbn [min_by].
  assert (E : Qltb (key a) (key m) = false)
    by (apply Qltb_ge, H; now left).
  rewrite E. apply IH. intros a' Ha'. apply H. now right.
Qed.

(** [min] returns the first of the items with the smallest key. *)
Lemma min_by_first (pre post : list A) (m best : A) :
  (key m < key best)%Q ->
  (forall a, In a pre -> (key m < key a)%Q) ->
  (forall a, In a post -> (key m <= key a)%Q) ->
  min_by key best (pre ++ m :: post) = m.
Proof.
  revert best. induction pre as [|a pre IH]; intros best Hbest Hpre Hpost.
  - cbn [app min_by]. apply Qltb_lt in Hbest. rewrite Hbest.
    now apply min_by_head.
  - cbn [app min_by]. destruct (Qltb (key a) (key best)).
    + apply IH; [apply Hpre; now left| |exact Hpost].
      intros a' Ha'. apply Hpre. now right.
    + apply IH; [exact Hbest| |exact Hpost].
      intros a' Ha'. apply Hpre. now right.
Qed.

Lemma py_min_first (pre post : list A) (m : A) :
  (forall a, In a pre -> (key m < key a)%Q) ->
  (forall a, In a post -> (key m <= key a)%Q) ->
  py_min key (pre ++ m :: post) = Py.Ok m.
Proof.
  intros Hpre Hpost. destruct pre as [|b pre]; cbn [app py_min]; f_equal.
  - now apply min_by_head.
  - apply min_by_first; [apply Hpre; now left| |exact Hpost].
    intros a Ha. apply Hpre. now right.
Qed.

(** Every non-empty list splits around such a first minimum. *)
Lemma first_minimum_exists (best : A) (rest : list A) :
  exists pre m post,
    best :: rest = (pre ++ m :: post)%list
    /\ (forall a, In a pre -> (key m < key a)%Q)
    /\ (forall a, In a post -> (key m <= key a)%Q).
Proof.
  revert best. induction rest as [|a rest IH]; intros best.
  - exists [], best, []. repeat split; intros ? [].
  - destruct (Qlt_le_dec (key a) (key best)) as [Hlt | Hle].
    + destruct (IH a) as (pre & m & post & Heq & Hpre & Hpost).
      exists (best :: pre), m, post. split; [cbn; now rewrite Heq|].
      split; [|exact Hpost].
      assert (Hma : (key m <= key a)%Q).
      { destruct pre as [|b pre]; cbn in Heq; injection Heq as Hb Hrest.
        - rewrite Hb. apply Qle_refl.
        - apply Qlt_le_weak, Hpre. left. now symmetry. }
      intros a' [<- | Ha']; [|now apply Hpre].
      eapply Qle_lt_trans; eassumption.
    + destruct (IH best) as (pre & m & post & Heq & Hpre & Hpost).
      destruct pre as [|b pre]; cbn in Heq; injection Heq as Hb Hrest.
      * exists [], m, (a :: post).
        split; [cbn; now rewrite Hb, Hrest|].
        split; [intros ? []|]. intros a' [<- | Ha']; [|now apply Hpost].
        rewrite <- Hb. exact Hle.
      * assert (Hmb : (key m < key best)%Q)
          by (rewrite Hb; apply Hpre; now left).
        exists (best :: a :: pre), m, post.
        split; [cbn; now rewrite Hrest|]. split; [|exact Hpost].
        intros a' [<- | [<- | Ha']].
        -- exact Hmb.
        -- eapply Qlt_le_trans; [exact Hmb | exact Hle].
        -- apply Hpre. now right.
Qed.

End MinBy.

Lemma min_by_map {A B : Type} (f : A -> B) (key : B -> Q) (a : A)
    (rest : list A) :
  min_by key (f a) (map f rest) = f (min_by (fun v => key (f v)) a rest).
Proof.
  revert a. induction rest as [|b rest IH]; intros a; [reflexivity|].
  cbn [map min_by]. destruct (Qltb (key (f b)) (key (f a))); apply IH.
Qed.

Lemma py_min_map {A B : Type} (f : A -> B) (key : B -> Q) (l : list A) :
  py_min key (map f l) =
  match py_min (fun v => key (f v)) l with
  | Py.Ok m => Py.Ok (f m)
  | Py.Raise e => Py.Raise e
  end.
Proof.
  destruct l as [|a rest]; [reflexivity|].
  cbn [map py_min]. now rewrite min_by_map.
Qed.

Lemma item_several {A : Type} (l : list A) :
  (2 <= List.length l)%nat -> Py.item l = Py.Raise (Py.ValueError Py.item_msg).
Proof.
  destruct l as [|a [|b l]]; cbn; intros H; try reflexivity; lia.
Qed.

Lemma filter_nonempty {A : Type} (f : A -> bool) (l : list A) (a : A) :
  In a l -> f a = true -> (1 <= List.length (filter f l))%nat.
Proof.
  intros Hin Hf.
  assert (H : In a (filter f l)) by (apply filter_In; auto).
  destruct (filter f l); [contradiction | cbn; lia].
Qed.

Section Geometry.

Variable geometry : Type.
Variable geometry_eq_dec : forall a b : geometry, {a = b} + {a <> b}.
Variable contains : geometry -> point -> bool.
Variable distance : point -> geometry -> Q.

Local Abbreviation region := (region geometry).
Local Abbreviation locate_bus := (locate_bus geometry geometry_eq_dec contains distance).
Local Abbreviation nearest := (nearest geometry geometry_eq_dec distance).
Local Abbreviation containing := (containing geometry contains).
Local Abbreviation geometry_eqb := (geometry_eqb geometry geometry_eq_dec).
Local Abbreviation candidates := (candidates geometry).

Lemma geometry_eqb_refl (g : geometry) : geometry_eqb g g = true.
Proof. unfold LocateBus.geometry_eqb. now destruct (geometry_eq_dec g g). Qed.

Lemma geometry_eqb_neq (g h : geometry) : g <> h -> geometry_eqb g h = false.
Proof.
  intros H. unfold LocateBus.geometry_eqb.
  now destruct (geometry_eq_dec g h).
Qed.

Lemma containing_none (l : list region) (p : point) :
  (forall r, In r l -> contains (geom r) p = false) -> containing l p = [].
Proof.
  unfold LocateBus.containing. induction l as [|a l IH]; [reflexivity|].
  intros H. cbn [filter]. rewrite (H a (or_introl eq_refl)).
  apply IH. intros r Hr. apply H. now right.
Qed.

Lemma same_geometry_unique (pre post : list region) (r : region) :
  (forall r', In r' (pre ++ post) -> geom r' <> geom r) ->
  filter (fun r' => geometry_eqb (geom r') (geom r)) (pre ++ r :: post) = [r].
Proof.
  intros H.
  assert (Hnone : forall l, (forall r', In r' l -> geom r' <> geom r) ->
            filter (fun r' => geometry_eqb (geom r') (geom r)) l = []).
  { induction l as [|a l IH]; [reflexivity|]. intros Hl. cbn [filter].
    rewrite geometry_eqb_neq by (apply Hl; now left).
    apply IH. intros r' Hr'. apply Hl. now right. }
  rewrite filter_app. cbn [filter]. rewrite geometry_eqb_refl.
  rewrite !Hnone; [reflexivity| |];
    intros r' Hr'; apply H, in_or_app; auto.
Qed.

Lemma same_geometry_several (pre post : list region) (r : region) :
  (exists r', In r' (pre ++ post) /\ geom r' = geom r) ->
  (2 <= List.length
          (filter (fun r' => geometry_eqb (geom r') (geom r))
             (pre ++ r :: post)))%nat.
Proof.
  intros (r' & Hin & Heq). rewrite filter_app, length_app. cbn [filter].
  rewrite geometry_eqb_refl. cbn [List.length].
  assert (Hf : geometry_eqb (geom r') (geom r) = true)
    by (rewrite Heq; apply geometry_eqb_refl).
  apply in_app_or in Hin. destruct Hin as [Hin | Hin].
  - pose proof (filter_nonempty
                  (fun v => geometry_eqb (geom v) (geom r)) _ _ Hin Hf). lia.
  - pose proof (filter_nonempty
                  (fun v => geometry_eqb (geom v) (geom r)) _ _ Hin Hf). lia.
Qed.

(** The handler returns the first of the regions at the smallest distance
    when no other row carries its geometry, and raises otherwise. *)
Lemma nearest_first_minimum (pre post : list region) (r : region) (p : point) :
  (forall r', In r' pre -> (distance p (geom r) < distance p (geom r'))%Q) ->
  (forall r', In r' post -> (distance p (geom r) <= distance p (geom r'))%Q) ->
  ((forall r', In r' (pre ++ post) -> geom r' <> geom r) ->
   nearest (pre ++ r :: post) p = Py.Ok (identifier r))
  /\ ((exists r', In r' (pre ++ post) /\ geom r' = geom r) ->
      nearest (pre ++ r :: post) p = Py.Raise (Py.ValueError Py.item_msg)).
Proof.
  intros Hpre Hpost.
  assert (Hmin : py_min (distance p) (map geom (pre ++ r :: post))
                 = Py.Ok (geom r)).
  { rewrite py_min_map.
    now rewrite (py_min_first (fun v => distance p (geom v)) pre post r). }
  unfold LocateBus.nearest. rewrite Hmin. cbn [Py.bind]. split.
  - intros Huniq. now rewrite same_geometry_unique.
  - intros Hdup. apply item_several. rewrite length_map.
    now apply same_geometry_several.
Qed.

Lemma try_body_split (pre post : list region) (r : region) (p : point) :
  (forall r', In r' pre -> contains (geom r') p = false) ->
  contains (geom r) p = true ->
  containing (pre ++ r :: post) p = r :: containing post p.
Proof.
  intros Hpre Hr. unfold LocateBus.containing. rewrite filter_app.
  fold (containing pre p). rewrite (containing_none pre p Hpre).
  cbn [app filter]. now rewrite Hr.
Qed.

(** C1 (as amended). Let [r] be the first candidate region that contains
    the point.  If no later candidate contains it, [locate_bus] returns the
    identifier of [r].  If a later candidate contains it too, the
    containment lookup fails and the result is that of the nearest-geometry
    handler; this is again the identifier of [r] when distances are
    non-negative and zero for [r], no candidate before [r] is at distance
    zero from the point, and no other candidate row has the geometry of
    [r]. *)
Theorem containing_region_returned (gdf : list region) (co : string)
    (p : point) (pre post : list region) (r : region) :
  candidates gdf co = (pre ++ r :: post)%list ->
  (forall r', In r' pre -> contains (geom r') p = false) ->
  contains (geom r) p = true ->
  ((forall r', In r' post -> contains (geom r') p = false) ->
   locate_bus gdf co p = Py.Ok (identifier r))
  /\ ((exists r', In r' post /\ contains (geom r') p = true) ->
      locate_bus gdf co p = nearest (candidates gdf co) p)
  /\ ((forall r', In r' (pre ++ post) -> (0 <= distance p (geom r'))%Q) ->
      (distance p (geom r) == 0)%Q ->
      (forall r', In r' pre -> ~ (distance p (geom r') == 0)%Q) ->
      (forall r', In r' (pre ++ post) -> geom r' <> geom r) ->
      locate_bus gdf co p = Py.Ok (identifier r)).
Proof.
  intros Hc Hpre Hr. unfold LocateBus.locate_bus. cbn zeta. rewrite Hc.
  rewrite (try_body_split pre post r p Hpre Hr).
  split; [|split].
  - intros Hpost. now rewrite (containing_none post p Hpost).
  - intros (r' & Hin & Hr').
    assert (H : In r' (containing post p)) by (apply filter_In; auto).
    destruct (containing post p) as [|a l]; [contradiction|]. reflexivity.
  - intros Hnonneg Hzero Hfar Huniq.
    destruct (containing post p) as [|a l]; [reflexivity|].
    cbn [map Py.item Py.try_except_ValueError].
    apply (nearest_first_minimum pre post r p); [| |exact Huniq].
    + intros r' Hr'. rewrite Hzero.
      destruct (Qle_lt_or_eq _ _ (Hnonneg r' (in_or_app _ _ _ (or_introl Hr'))))
        as [Hlt | Heq]; [exact Hlt|].
      exfalso. apply (Hfar r' Hr'). now symmetry.
    + intros r' Hr'. rewrite Hzero.
      apply Hnonneg, in_or_app. now right.
Qed.

(** C2 (as amended). When the candidate set is not empty and no candidate
    contains the point, the candidates split around a region [r] that is
    the first at the smallest distance from the point (strictly nearer
    than every earlier candidate, at least as near as every later one), and
    [locate_bus] returns the identifier of [r] when no other candidate row
    has the geometry of [r]; when another row has it, the call raises
    [ValueError]. *)
Theorem nearest_region_fallback (gdf : list region) (co : string)
    (p : point) :
  candidates gdf co <> [] ->
  (forall r, In r (candidates gdf co) -> contains (geom r) p = false) ->
  exists pre r post,
    candidates gdf co = (pre ++ r :: post)%list
    /\ (forall r', In r' pre ->
          (distance p (geom r) < distance p (geom r'))%Q)
    /\ (forall r', In r' post ->
          (distance p (geom r) <= distance p (geom r'))%Q)
    /\ ((forall r', In r' (pre ++ post) -> geom r' <> geom r) ->
        locate_bus gdf co p = Py.Ok (identifier r))
    /\ ((exists r', In r' (pre ++ post) /\ geom r' = geom r) ->
        locate_bus gdf co p = Py.Raise (Py.ValueError Py.item_msg)).
Proof.
  intros Hne Hout. unfold LocateBus.locate_bus. cbn zeta.
  rewrite (containing_none _ p Hout).
  cbn [map Py.item Py.try_except_ValueError].
  destruct (candidates gdf co) as [|a l]; [congruence|].
  destruct (first_minimum_exists (fun v => distance p (geom v)) a l)
    as (pre & r & post & Heq & Hpre & Hpost).
  exists pre, r, post. rewrite Heq.
  split; [reflexivity|]. split; [exact Hpre|]. split; [exact Hpost|].
  exact (nearest_first_minimum pre post r p Hpre Hpost).
Qed.

(** C3 (as amended). When the scope filter leaves no candidate region,
    [locate_bus] raises the [ValueError] of the built-in [min] on an empty
    sequence, out of the handler, and returns no identifier. *)
Theorem no_candidate_raises (gdf : list region) (co : string) (p : point) :
  candidates gdf co = [] ->
  locate_bus gdf co p = Py.Raise (Py.ValueError min_msg)
  /\ forall id, locate_bus gdf co p <> Py.Ok id.
Proof.
  intros Hc. unfold LocateBus.locate_bus. cbn zeta. rewrite Hc.
  split; [reflexivity|]. intros id. discriminate.
Qed.

End Geometry.

(** *** Runs on meridian bands *)

Lemma containing_region_returned_witness :
  locate_bus_band overlapping_gdf "MA" {| x := 7 # 2; y := 0 |}
    = Py.Ok "MA.3_1"
  /\ locate_bus_band overlapping_gdf "MA" {| x := 3 # 2; y := 0 |}
     = Py.Ok "MA.1_1".
Proof.
  split.
  - refine (proj1 (containing_region_returned band band_eq_dec band_contains
      band_distance overlapping_gdf "MA" {| x := 7 # 2; y := 0 |}
      [band_region "MA.1_1" 0 2; band_region "MA.2_1" 1 3] []
      (band_region "MA.3_1" 1 4) eq_refl _ eq_refl) _).
    + intros r' [<- | [<- | []]]; reflexivity.
    + intros r' [].
  - refine (proj2 (proj2 (containing_region_returned band band_eq_dec
      band_contains band_distance overlapping_gdf "MA"
      {| x := 3 # 2; y := 0 |} []
      [band_region "MA.2_1" 1 3; band_region "MA.3_1" 1 4]
      (band_region "MA.1_1" 0 2) eq_refl _ eq_refl)) _ _ _ _).
    + intros r' [].
    + intros r' [<- | [<- | []]]; vm_compute; discriminate.
    + reflexivity.
    + intros r' [].
    + intros r' [<- | [<- | []]]; discriminate.
Defined.

(** The claim C1 as written fails when several candidates contain the
    point and an earlier candidate merely touches it: the point [x = 2] is
    on the boundary of the first region and inside the second and third;
    the region returned is the first one, which does not contain it. *)
Lemma first_containing_not_returned :
  map identifier
    (containing band band_contains (candidates band overlapping_gdf "MA")
       {| x := 2; y := 0 |}) = ["MA.2_1"; "MA.3_1"]
  /\ locate_bus_band overlapping_gdf "MA" {| x := 2; y := 0 |}
     = Py.Ok "MA.1_1"
  /\ locate_bus_band overlapping_gdf "MA" {| x := 2; y := 0 |}
     <> Py.Ok "MA.2_1".
Proof. repeat split; [vm_compute; reflexivity..|discriminate]. Qed.

(** Two candidate rows with one geometry that contains the point: the
    call raises. *)
Lemma containing_duplicates_raise :
  locate_bus_band duplicated_gdf "MA" {| x := 3 # 2; y := 0 |}
  = Py.Raise (Py.ValueError Py.item_msg).
Proof. reflexivity. Qed.

Lemma nearest_region_fallback_witness :
  exists pre r post,
    candidates band coastal_gdf "MA" = (pre ++ r :: post)%list
    /\ (forall r', In r' pre ->
          (band_distance origin (geom r) < band_distance origin (geom r'))%Q)
    /\ (forall r', In r' post ->
          (band_distance origin (geom r) <= band_distance origin (geom r'))%Q)
    /\ ((forall r', In r' (pre ++ post) -> geom r' <> geom r) ->
        locate_bus_band coastal_gdf "MA" origin = Py.Ok (identifier r))
    /\ ((exists r', In r' (pre ++ post) /\ geom r' = geom r) ->
        locate_bus_band coastal_gdf "MA" origin
        = Py.Raise (Py.ValueError Py.item_msg)).
Proof.
  apply (nearest_region_fallback band band_eq_dec band_contains band_distance
           coastal_gdf "MA" origin).
  - discriminate.
  - intros r [<- | [<- | [<- | []]]]; reflexivity.
Defined.

(** Regions at distances 3, 1 and 2: the region at distance 1 is found. *)
Lemma nearest_of_three :
  map (fun r => band_distance origin (geom r)) coastal_gdf = [3; 1; 2]%Q
  /\ locate_bus_band coastal_gdf "MA" origin = Py.Ok "MA.1_1".
Proof. split; reflexivity. Qed.

(** The claim C2 as written fails when the nearest geometry is carried by
    two candidate rows: no identifier is returned. *)
Lemma nearest_duplicates_raise :
  candidates band duplicated_gdf "MA" <> []
  /\ containing band band_contains (candidates band duplicated_gdf "MA")
       origin = []
  /\ locate_bus_band duplicated_gdf "MA" origin
     = Py.Raise (Py.ValueError Py.item_msg)
  /\ forall id, locate_bus_band duplicated_gdf "MA" origin <> Py.Ok id.
Proof.
  split; [discriminate|]. split; [reflexivity|]. split; [reflexivity|].
  intros id. discriminate.
Qed.

Lemma no_candidate_raises_witness :
  locate_bus_band overlapping_gdf "NG" origin
  = Py.Raise (Py.ValueError min_msg).
Proof.
  exact (proj1 (no_candidate_raises band band_eq_dec band_contains
                  band_distance overlapping_gdf "NG" origin eq_refl)).
Defined.

(** The claim C3 as written fails on the kind of error: with no candidate
    the call does raise, yet no raised error names the missing region. *)
Lemma no_candidate_error_not_descriptive :
  candidates band overlapping_gdf "NG" = []
  /\ ~ (exists e, locate_bus_band overlapping_gdf "NG" origin = Py.Raise e
                  /\ describes_no_candidate e = true).
Proof.
  split; [reflexivity|]. intros (e & He & Hd).
  vm_compute in He. injection He as <-. vm_compute in Hd. discriminate.
Qed.

End LocateBusFacts.

Module LengthEfficiencyFacts.
Import LengthEfficiency.
Local Open Scope R_scope.

Lemma float_pow_0 (x : R) : float_pow x 0 = 1.
Proof. unfold float_pow, Rpower. rewrite Rmult_0_l. apply exp_0. Qed.

Lemma float_pow_2 (x : R) : 0 < x -> float_pow x 2 = x * x.
Proof.
  intros H. unfold float_pow. replace 2 with (INR 2) by (cbn; lra).
  rewrite Rpower_pow by exact H. cbn. lra.
Qed.

Lemma string_length_append (s t : string) :
  String.length (s ++ t) = (String.length s + String.length t)%nat.
Proof. induction s as [|c s IH]; cbn; [reflexivity | now rewrite IH]. Qed.

(** [removesuffix] takes an ending [suffix] away. *)
Lemma removesuffix_append (s suffix : string) :
  Str.removesuffix (s ++ suffix) suffix = s.
Proof.
  induction s as [|c s IH].
  - cbn [append]. destruct suffix; cbn; now rewrite ?Ascii.eqb_refl,
      ?String.eqb_refl.
  - cbn [append Str.removesuffix].
    assert (E : String.eqb (String c (s ++ suffix)) suffix = false).
    { apply String.eqb_neq. intros H.
      apply (f_equal String.length) in H. cbn [String.length] in H.
      rewrite string_length_append in H. lia. }
    rewrite E. fold Str.removesuffix. now rewrite IH.
Qed.

Lemma set_length_based_efficiency_rows (links : list link)
    (target bus_suffix : string) (config : efficiencies) :
  set_length_based_efficiency links target bus_suffix config =
  map (updated_row target bus_suffix config) links.
Proof.
  unfold set_length_based_efficiency, updated_row, assign_loc. cbn zeta.
  destruct (Rlt_dec 0 (get (compression_per_1000km config) 0)).
  - rewrite !map_map. apply map_ext. intros l.
    destruct (String.eqb (carrier l) target) eqn:E.
    + cbn [carrier set_efficiency set_bus2]. rewrite ?E.
      cbn [carrier set_efficiency set_bus2]. rewrite ?E. reflexivity.
    + rewrite ?E. reflexivity.
  - apply map_ext. intros l.
    destruct (String.eqb (carrier l) target); reflexivity.
Qed.

Lemma updated_row_nth (links : list link) (target bus_suffix : string)
    (config : efficiencies) (i : nat) (l : link) :
  nth_error links i = Some l ->
  nth_error (set_length_based_efficiency links target bus_suffix config) i
  = Some (updated_row target bus_suffix config l).
Proof.
  intros H. rewrite set_length_based_efficiency_rows.
  now apply map_nth_error.
Qed.

(** C6. Every link of the target carrier, of length [L], gets the
    efficiency [efficiency_static * efficiency_per_1000km ^ (L / 1000)]
    (the power being the real power of a positive base), its name and
    length staying as they were; a link of length 0 gets exactly
    [efficiency_static], and with [efficiency_static = 0.98] and
    [efficiency_per_1000km = 0.95] a link of length 2000 gets
    [0.98 * 0.95^2 = 0.88445]. *)
Theorem efficiency_follows_length (links : list link)
    (target bus_suffix : string) (config : efficiencies) (i : nat)
    (l : link) :
  nth_error links i = Some l ->
  carrier l = target ->
  let static := get (efficiency_static config) 1 in
  let per := get (efficiency_per_1000km config) 1 in
  exists l',
    nth_error (set_length_based_efficiency links target bus_suffix config) i
    = Some l'
    /\ name l' = name l /\ carrier l' = carrier l /\ length l' = length l
    /\ (0 < per -> efficiency l' = static * Rpower per (length l / 1000))
    /\ (length l = 0 -> efficiency l' = static)
    /\ (static = 98 / 100 -> per = 95 / 100 -> length l = 2000 ->
        efficiency l' = 98 / 100 * (95 / 100) ^ 2
        /\ efficiency l' = 88445 / 100000).
Proof.
  intros Hnth Hcar static per.
  exists (updated_row target bus_suffix config l).
  split; [now apply updated_row_nth|].
  assert (Heff : efficiency (updated_row target bus_suffix config l)
                 = static * float_pow per (length l / 1000)).
  { unfold updated_row. cbn zeta. rewrite Hcar, String.eqb_refl.
    destruct (Rlt_dec 0 (get (compression_per_1000km config) 0));
      reflexivity. }
  assert (Hsame : name (updated_row target bus_suffix config l) = name l
                  /\ carrier (updated_row target bus_suffix config l)
                     = carrier l
                  /\ length (updated_row target bus_suffix config l)
                     = length l).
  { unfold updated_row. cbn zeta. rewrite Hcar, String.eqb_refl.
    destruct (Rlt_dec 0 (get (compression_per_1000km config) 0));
      cbn; auto. }
  destruct Hsame as (Hn & Hc & Hl).
  repeat (split; [assumption|]).
  split; [intros _; exact Heff|]. split.
  - intros H0. rewrite Heff, H0.
    replace (0 / 1000) with 0 by lra. rewrite float_pow_0. lra.
  - intros Hs Hp H2000. rewrite Heff, H2000, Hs, Hp.
    replace (2000 / 1000) with 2 by lra.
    rewrite float_pow_2 by lra. split; lra.
Qed.

Lemma efficiency_follows_length_witness :
  exists l',
    nth_error (set_length_based_efficiency sample_links "H2 pipeline" " H2"
                 sample_config) 0 = Some l'
    /\ efficiency l' = 88445 / 100000.
Proof.
  destruct (efficiency_follows_length sample_links "H2 pipeline" " H2"
              sample_config 0 _ eq_refl eq_refl)
    as (l' & Hnth & _ & _ & _ & _ & _ & H).
  exists l'. split; [exact Hnth|].
  now apply H.
Defined.

(** C7. On a link of the target carrier, [bus2] and [efficiency2] are set
    exactly when [compression_per_1000km > 0]: then [efficiency2] is
    [- compression_per_1000km * length / 1000] and [bus2] is [bus0] with the
    suffix taken off ([-0.01] for compression 0.01 and length 1000);
    otherwise, and so for a compression of 0, both cells of every link are
    left as they were.  Links of other carriers are never touched. *)
Theorem compression_only_when_positive (links : list link)
    (target bus_suffix : string) (config : efficiencies) (i : nat)
    (l : link) :
  nth_error links i = Some l ->
  let compression := get (compression_per_1000km config) 0 in
  exists l',
    nth_error (set_length_based_efficiency links target bus_suffix config) i
    = Some l'
    /\ (0 < compression -> carrier l = target ->
        efficiency2 l' = Some (- compression * length l / 1000)
        /\ bus2 l' = Some (Str.removesuffix (bus0 l) bus_suffix)
        /\ (forall base, bus0 l = (base ++ bus_suffix)%string ->
            bus2 l' = Some base)
        /\ (compression = 1 / 100 -> length l = 1000 ->
            efficiency2 l' = Some (- (1 / 100))))
    /\ (~ 0 < compression ->
        efficiency2 l' = efficiency2 l /\ bus2 l' = bus2 l)
    /\ (compression = 0 ->
        efficiency2 l' = efficiency2 l /\ bus2 l' = bus2 l)
    /\ (carrier l <> target -> l' = l).
Proof.
  intros Hnth compression.
  exists (updated_row target bus_suffix config l).
  split; [now apply updated_row_nth|].
  assert (Hno : ~ 0 < compression ->
            efficiency2 (updated_row target bus_suffix config l)
            = efficiency2 l
            /\ bus2 (updated_row target bus_suffix config l) = bus2 l).
  { intros Hc. unfold updated_row. cbn zeta. fold compression.
    destruct (String.eqb (carrier l) target); [|auto].
    destruct (Rlt_dec 0 compression); [contradiction | cbn; auto]. }
  split; [|split; [exact Hno|split]].
  - intros Hpos Hcar. unfold updated_row. cbn zeta. fold compression.
    rewrite Hcar, String.eqb_refl.
    destruct (Rlt_dec 0 compression); [|contradiction].
    cbn [efficiency2 bus2]. split; [reflexivity|]. split; [reflexivity|].
    split.
    + intros base ->. now rewrite removesuffix_append.
    + intros -> ->. f_equal. lra.
  - intros H0. apply Hno. rewrite H0. apply Rlt_irrefl.
  - intros Hcar. unfold updated_row. cbn zeta.
    apply String.eqb_neq in Hcar. now rewrite Hcar.
Qed.

Lemma compression_only_when_positive_witness :
  exists l',
    nth_error (set_length_based_efficiency sample_links "H2 pipeline" " H2"
                 sample_config) 1 = Some l'
    /\ efficiency2 l' = Some (- (1 / 100))
    /\ bus2 l' = Some "MA 1"%string.
Proof.
  destruct (compression_only_when_positive sample_links "H2 pipeline" " H2"
              sample_config 1 _ eq_refl)
    as (l' & Hnth & Hpos & _).
  assert (Hc : 0 < get (compression_per_1000km sample_config) 0)
    by (cbn; lra).
  destruct (Hpos Hc eq_refl) as (_ & _ & Hbus & Heff).
  exists l'. split; [exact Hnth|]. split.
  - apply Heff; reflexivity.
  - apply (Hbus "MA 1"%string). reflexivity.
Defined.

End LengthEfficiencyFacts.


(** ** Further properties of the functions above *)

Module LocateBusScope.
Import LocateBus.

Lemma item_In {A : Type} (l : list A) (a : A) :
  Py.item l = Py.Ok a -> In a l.
Proof.
  destruct l as [|b [|c l]]; cbn; intros H; try discriminate.
  injection H as ->. now left.
Qed.

Section Geometry.

Variable geometry : Type.
Variable geometry_eq_dec : forall a b : geometry, {a = b} + {a <> b}.
Variable contains : geometry -> point -> bool.
Variable distance : point -> geometry -> Q.

Local Abbreviation locate_bus :=
  (locate_bus geometry geometry_eq_dec contains distance).

Lemma identifier_of_candidate (gdf : list (region geometry)) (co id : string)
    (f : region geometry -> bool) :
  In id (map identifier (filter f (candidates geometry gdf co))) ->
  exists r, In r gdf /\ identifier r = id
            /\ Str.str_contains co (identifier r) = true.
Proof.
  rewrite in_map_iff. intros (r & Hid & Hr).
  apply filter_In in Hr. destruct Hr as [Hr _].
  unfold candidates in Hr. apply filter_In in Hr. destruct Hr as [Hin Hco].
  exists r. auto.
Qed.

(** For a scope [co] made of letters, digits and dashes (which
    [str.contains] searches for as it is written), whatever [locate_bus]
    returns is the identifier of a row of [gdf] whose identifier contains
    [co]: a region outside the scope is never returned, neither by the
    containment lookup nor by the nearest-geometry handler. *)
Theorem locate_bus_in_scope (gdf : list (region geometry)) (co : string)
    (p : point) (id : string) :
  Str.plain_pattern co = true ->
  locate_bus gdf co p = Py.Ok id ->
  exists r, In r gdf /\ identifier r = id
            /\ Str.str_contains co (identifier r) = true.
Proof.
  intros _. unfold LocateBus.locate_bus. cbn zeta.
  destruct (Py.item (map identifier
              (containing geometry contains (candidates geometry gdf co) p)))
    as [a | e] eqn:Etry.
  - cbn. intros H. injection H as <-. apply item_In in Etry.
    now apply identifier_of_candidate in Etry.
  - destruct e; cbn; try discriminate.
    unfold nearest.
    destruct (py_min (distance p) (map geom (candidates geometry gdf co)))
      as [g | e']; cbn [Py.bind]; [|discriminate].
    intros H. apply item_In in H.
    now apply identifier_of_candidate in H.
Qed.

End Geometry.

Lemma locate_bus_in_scope_witness :
  exists r, In r coastal_gdf /\ identifier r = "MA.1_1"
            /\ Str.str_contains "MA" (identifier r) = true.
Proof.
  exact (locate_bus_in_scope band band_eq_dec band_contains band_distance
           coastal_gdf "MA" origin "MA.1_1" eq_refl eq_refl).
Defined.

End LocateBusScope.

Module LengthEfficiencyLaws.
Import LengthEfficiency LengthEfficiencyFacts.
Local Open Scope R_scope.

Lemma updated_row_idempotent (target bus_suffix : string)
    (config : efficiencies) (l : link) :
  updated_row target bus_suffix config
    (updated_row target bus_suffix config l)
  = updated_row target bus_suffix config l.
Proof.
  unfold updated_row. cbn zeta.
  destruct (String.eqb (carrier l) target) eqn:E; [|now rewrite E].
  destruct (Rlt_dec 0 (get (compression_per_1000km config) 0));
    cbn [carrier bus0 length bus2 efficiency2 name]; now rewrite E.
Qed.

(** Applying [set_length_based_efficiency] a second time, with the same
    carrier, suffix and configuration, changes nothing: every value it
    writes is computed from columns it does not write. *)
Theorem set_length_based_efficiency_idempotent (links : list link)
    (target bus_suffix : string) (config : efficiencies) :
  set_length_based_efficiency
    (set_length_based_efficiency links target bus_suffix config)
    target bus_suffix config
  = set_length_based_efficiency links target bus_suffix config.
Proof.
  rewrite !set_length_based_efficiency_rows, map_map.
  apply map_ext. intros l. apply updated_row_idempotent.
Qed.

Lemma float_pow_base_1 (y : R) : float_pow 1 y = 1.
Proof. unfold float_pow, Rpower. rewrite ln_1, Rmult_0_r. apply exp_0. Qed.

(** With a configuration that gives none of the three coefficients, a link
    of the target carrier gets the efficiency 1 whatever its length and
    whatever its efficiency was, and [bus2] and [efficiency2] of every link
    stay as they were.  More generally a decay factor of 1 gives every
    such link the efficiency [efficiency_static]. *)
Theorem missing_coefficients_are_neutral (links : list link)
    (target bus_suffix : string) (config : efficiencies) (i : nat)
    (l : link) :
  nth_error links i = Some l ->
  exists l',
    nth_error (set_length_based_efficiency links target bus_suffix config) i
    = Some l'
    /\ (get (efficiency_per_1000km config) 1 = 1 -> carrier l = target ->
        efficiency l' = get (efficiency_static config) 1)
    /\ (efficiency_static config = None ->
        efficiency_per_1000km config = None ->
        carrier l = target -> efficiency l' = 1)
    /\ (compression_per_1000km config = None ->
        bus2 l' = bus2 l /\ efficiency2 l' = efficiency2 l).
Proof.
  intros Hnth. exists (updated_row target bus_suffix config l).
  split; [now apply updated_row_nth|].
  assert (Hper : get (efficiency_per_1000km config) 1 = 1 ->
            carrier l = target ->
            efficiency (updated_row target bus_suffix config l)
            = get (efficiency_static config) 1).
  { intros H1 Hcar. unfold updated_row. cbn zeta.
    rewrite Hcar, String.eqb_refl, H1.
    destruct (Rlt_dec 0 (get (compression_per_1000km config) 0));
      cbn [efficiency]; rewrite float_pow_base_1; lra. }
  split; [exact Hper|]. split.
  - intros Hs Hp Hcar. rewrite Hper; [|now rewrite Hp|exact Hcar].
    now rewrite Hs.
  - intros Hc. unfold updated_row. cbn zeta. rewrite Hc. cbn [get].
    destruct (String.eqb (carrier l) target); [|auto].
    destruct (Rlt_dec 0 0) as [H | _]; [lra | cbn; auto].
Qed.

Lemma missing_coefficients_are_neutral_witness :
  exists l',
    nth_error (set_length_based_efficiency sample_links "H2 pipeline" " H2"
                 {| efficiency_static := None;
                    efficiency_per_1000km := None;
                    compression_per_1000km := None |}) 0 = Some l'
    /\ efficiency l' = 1 /\ bus2 l' = None.
Proof.
  destruct (missing_coefficients_are_neutral sample_links "H2 pipeline" " H2"
              {| efficiency_static := None; efficiency_per_1000km := None;
                 compression_per_1000km := None |} 0 _ eq_refl)
    as (l' & Hnth & _ & Hone & Hnone).
  exists l'. split; [exact Hnth|]. split.
  - apply Hone; reflexivity.
  - apply (Hnone eq_refl).
Defined.

End LengthEfficiencyLaws.

Module TopologyOrder.
Import Topology TopologyFacts.

(** *** The order of strings and of group keys *)

Lemma ltb_lt (a b : string) :
  String.ltb a b = true <-> OrderedTypeEx.String_as_OT.lt a b.
Proof.
  rewrite <- OrderedTypeEx.String_as_OT.cmp_lt.
  unfold OrderedTypeEx.String_as_OT.cmp, String.ltb.
  destruct (String.compare a b); split; congruence.
Qed.

Lemma ltb_trans (a b c : string) :
  String.ltb a b = true -> String.ltb b c = true -> String.ltb a c = true.
Proof.
  rewrite !ltb_lt. apply OrderedTypeEx.String_as_OT.lt_trans.
Qed.

Lemma ltb_total (a b : string) :
  String.ltb a b = false -> a <> b -> String.ltb b a = true.
Proof.
  unfold String.ltb. rewrite (String.compare_antisym b a). intros H Hne.
  destruct (String.compare a b) eqn:E; try discriminate; [|reflexivity].
  apply String.compare_eq_iff in E. contradiction.
Qed.

Lemma key_eqb_eq (a b : key) : key_eqb a b = true <-> a = b.
Proof.
  destruct a as [a0 a1], b as [b0 b1]. unfold key_eqb. cbn [fst snd].
  rewrite andb_true_iff, !String.eqb_eq. split.
  - intros [-> ->]. reflexivity.
  - intros H. injection H as -> ->. auto.
Qed.

Lemma key_lt_irrefl (k : key) : ~ key_lt k k.
Proof.
  unfold key_lt, key_ltb. rewrite !ltb_irrefl, andb_false_r. discriminate.
Qed.

Lemma key_lt_trans (a b c : key) : key_lt a b -> key_lt b c -> key_lt a c.
Proof.
  destruct a as [a0 a1], b as [b0 b1], c as [c0 c1].
  unfold key_lt, key_ltb. cbn [fst snd].
  rewrite !orb_true_iff, !andb_true_iff, !String.eqb_eq.
  intros [H1 | [-> H1]] [H2 | [-> H2]]; auto.
  - left. eapply ltb_trans; eassumption.
  - right. split; [reflexivity|]. eapply ltb_trans; eassumption.
Qed.

Lemma key_lt_total (a b : key) :
  key_eqb a b = false -> key_ltb a b = false -> key_lt b a.
Proof.
  destruct a as [a0 a1], b as [b0 b1].
  unfold key_lt, key_ltb, key_eqb. cbn [fst snd]. intros Hne Hlt.
  apply orb_false_iff in Hlt. destruct Hlt as [H0 H1].
  destruct (String.eqb_spec a0 b0) as [-> | Hn0].
  - rewrite String.eqb_refl. cbn [andb] in Hne, H1 |- *.
    apply String.eqb_neq in Hne. rewrite (ltb_total _ _ H1 Hne).
    apply orb_true_r.
  - now rewrite (ltb_total _ _ H0 Hn0).
Qed.

(** *** The keys of the groups: each key once, in increasing order *)

Lemma In_insert_key_iff (k k' : key) (ks : list key) :
  In k' (insert_key k ks) <-> k' = k \/ In k' ks.
Proof.
  split; [apply In_insert_key|].
  induction ks as [|k0 rest IH]; cbn [insert_key].
  - cbn. intuition.
  - destruct (key_eqb k k0) eqn:E.
    + apply key_eqb_eq in E. subst k0. cbn. intuition.
    + destruct (key_ltb k k0); cbn in *; intuition.
Qed.

Lemma In_group_keys_iff (cs : list edge) (k : key) :
  In k (group_keys cs) <-> In k (map key_of cs).
Proof.
  unfold group_keys. induction cs as [|c rest IH]; cbn [map fold_right].
  - reflexivity.
  - rewrite In_insert_key_iff, IH. cbn. intuition.
Qed.

Lemma insert_key_sorted (k : key) (ks : list key) :
  StronglySorted key_lt ks -> StronglySorted key_lt (insert_key k ks).
Proof.
  induction ks as [|k0 rest IH]; intros Hs; cbn [insert_key].
  - repeat constructor.
  - destruct (key_eqb k k0) eqn:E; [exact Hs|].
    inversion Hs as [|? ? Hrest Hall]; subst.
    destruct (key_ltb k k0) eqn:L.
    + constructor; [exact Hs|]. constructor; [exact L|].
      eapply Forall_impl; [|exact Hall]. intros a Ha.
      eapply key_lt_trans; eassumption.
    + constructor; [now apply IH|].
      apply Forall_forall. intros a Ha.
      apply In_insert_key in Ha. destruct Ha as [-> | Ha].
      * now apply key_lt_total.
      * rewrite Forall_forall in Hall. now apply Hall.
Qed.

Lemma group_keys_sorted (cs : list edge) :
  StronglySorted key_lt (group_keys cs).
Proof.
  unfold group_keys. induction cs as [|c rest IH]; cbn [map fold_right].
  - constructor.
  - now apply insert_key_sorted.
Qed.

Lemma sorted_NoDup (ks : list key) : StronglySorted key_lt ks -> NoDup ks.
Proof.
  induction 1 as [|k ks Hs IH Hall]; constructor; [|exact IH].
  intros Hin. rewrite Forall_forall in Hall.
  exact (key_lt_irrefl k (Hall k Hin)).
Qed.

(** Two increasing lists with the same elements are the same list. *)
Lemma sorted_same_elements (l1 l2 : list key) :
  StronglySorted key_lt l1 -> StronglySorted key_lt l2 ->
  (forall k, In k l1 <-> In k l2) -> l1 = l2.
Proof.
  intros H1. revert l2.
  induction H1 as [|a l1 Hs1 IH Ha]; intros l2 H2 Hsame.
  - destruct l2 as [|b l2]; [reflexivity|].
    exfalso. apply (proj2 (Hsame b)). now left.
  - destruct H2 as [|b l2 Hs2 Hb].
    + exfalso. apply (proj1 (Hsame a)). now left.
    + rewrite Forall_forall in Ha, Hb.
      assert (Hab : a = b).
      { destruct (proj1 (Hsame a) (or_introl eq_refl)) as [E | Hin2];
          [now symmetry|].
        destruct (proj2 (Hsame b) (or_introl eq_refl)) as [E | Hin1];
          [exact E|].
        exfalso. apply (key_lt_irrefl a).
        eapply key_lt_trans; [apply Ha; exact Hin1 | apply Hb; exact Hin2]. }
      subst b. f_equal. apply IH; [exact Hs2|].
      intros k. split; intros Hk.
      * destruct (proj1 (Hsame k) (or_intror Hk)) as [E | Hin]; [|exact Hin].
        subst k. exfalso. exact (key_lt_irrefl a (Ha a Hk)).
      * destruct (proj2 (Hsame k) (or_intror Hk)) as [E | Hin]; [|exact Hin].
        subst k. exfalso. exact (key_lt_irrefl a (Hb a Hk)).
Qed.

End TopologyOrder.

Module TopologyLaws.
Import Topology TopologyFacts TopologyOrder.

Lemma In_groupby_mean_iff (prefix connector : string) (cs : list edge)
    (b0 b1 : string) :
  (exists r, In r (groupby_mean prefix connector cs)
             /\ r_bus0 r = b0 /\ r_bus1 r = b1)
  <-> In (b0, b1) (map key_of cs).
Proof.
  rewrite <- In_group_keys_iff. unfold groupby_mean. split.
  - intros (r & Hr & <- & <-). apply in_map_iff in Hr.
    destruct Hr as ([k0 k1] & <- & Hk). exact Hk.
  - intros Hk. eexists. split; [apply in_map_iff; eexists; split;
      [reflexivity | exact Hk]|]. cbn. auto.
Qed.

Lemma canonical_in_normalize (cs : list edge) (c : edge) :
  In c cs -> In (canonical c) (normalize cs).
Proof.
  intros Hin. unfold normalize, canonical. apply in_or_app.
  destruct (positive_order c) eqn:E.
  - left. apply filter_In. auto.
  - right. apply in_map. apply filter_In. now rewrite E.
Qed.

(** Every candidate edge of the network is represented in the topology:
    with [bidirectional=True] by a row between its two buses, taken in the
    order of strings; with [bidirectional=False] also by a row with exactly
    its [bus0] and [bus1], and by one with the two exchanged. *)
Theorem every_edge_has_row (prefix connector : string) (n : network)
    (c : edge) :
  In c (raw_candidates n) ->
  (exists r, In r (create_network_topology prefix connector n true)
             /\ r_bus0 r = bus0 (canonical c)
             /\ r_bus1 r = bus1 (canonical c))
  /\ (exists r, In r (create_network_topology prefix connector n false)
               /\ r_bus0 r = bus0 c /\ r_bus1 r = bus1 c)
  /\ (exists r, In r (create_network_topology prefix connector n false)
               /\ r_bus0 r = bus1 c /\ r_bus1 r = bus0 c).
Proof.
  intros Hin. unfold create_network_topology. cbn [negb].
  assert (Hrow : exists r,
            In r (groupby_mean prefix connector
                    (normalize (raw_candidates n)))
            /\ r_bus0 r = bus0 (canonical c)
            /\ r_bus1 r = bus1 (canonical c)).
  { apply In_groupby_mean_iff.
    change (bus0 (canonical c), bus1 (canonical c))
      with (key_of (canonical c)).
    apply in_map. now apply canonical_in_normalize. }
  split; [exact Hrow|].
  destruct Hrow as (r & Hr & H0 & H1).
  unfold canonical in H0, H1.
  destruct (positive_order c); cbn [swap_edge bus0 bus1] in H0, H1.
  - split.
    + exists r. split; [apply in_or_app; now left | auto].
    + exists (reverse_row prefix connector r).
      split; [apply in_or_app; right; now apply in_map | cbn; auto].
  - split.
    + exists (reverse_row prefix connector r).
      split; [apply in_or_app; right; now apply in_map | cbn; auto].
    + exists r. split; [apply in_or_app; now left | auto].
Qed.

Lemma every_edge_has_row_witness :
  exists r, In r (create_network_topology "" " <-> " two_way_network false)
            /\ r_bus0 r = "MA 1" /\ r_bus1 r = "MA 0".
Proof.
  exact (proj1 (proj2 (every_edge_has_row "" " <-> " two_way_network
           {| bus0 := "MA 1"; bus1 := "MA 0"; length := 10;
              underwater_fraction := 0 |}
           (or_intror (or_introl eq_refl))))).
Defined.

(** With [bidirectional=True] the rows of the topology come in strictly
    increasing order of [(bus0, bus1)]; so no two rows join the same pair
    of buses. *)
Theorem one_row_per_connection (prefix connector : string) (n : network) :
  let pairs := map (fun r => (r_bus0 r, r_bus1 r))
                 (create_network_topology prefix connector n true) in
  StronglySorted key_lt pairs /\ NoDup pairs.
Proof.
  cbn zeta. unfold create_network_topology. cbn [negb].
  assert (E : map (fun r => (r_bus0 r, r_bus1 r))
                (groupby_mean prefix connector
                   (normalize (raw_candidates n)))
              = group_keys (normalize (raw_candidates n))).
  { unfold groupby_mean. rewrite map_map. cbn [r_bus0 r_bus1].
    rewrite <- (map_id (group_keys _)) at 2. apply map_ext.
    now intros [k0 k1]. }
  rewrite E. split; [apply group_keys_sorted|].
  apply sorted_NoDup, group_keys_sorted.
Qed.

(** *** Independence of the direction and order of the raw edges *)

Lemma swap_edge_involutive (c : edge) : swap_edge (swap_edge c) = c.
Proof. now destruct c. Qed.

Lemma canonical_swap (c : edge) : canonical (swap_edge c) = canonical c.
Proof.
  unfold canonical, positive_order. cbn [swap_edge bus0 bus1].
  destruct (String.ltb (bus0 c) (bus1 c)) eqn:E.
  - rewrite (ltb_asym _ _ E). apply swap_edge_involutive.
  - destruct (String.ltb (bus1 c) (bus0 c)) eqn:E'; [reflexivity|].
    fold (swap_edge c). rewrite swap_edge_involutive.
    destruct (string_dec (bus0 c) (bus1 c)) as [Heq | Hne].
    + destruct c as [b0 b1 len uf]. cbn in Heq |- *. now subst.
    + pose proof (ltb_total _ _ E Hne). congruence.
Qed.

Lemma normalize_canonical (cs : list edge) :
  Permutation (normalize cs) (map canonical cs).
Proof.
  unfold normalize. induction cs as [|c cs IH]; [constructor|].
  cbn [filter map]. unfold canonical at 1.
  destruct (positive_order c); cbn [negb map app].
  - now constructor.
  - symmetry. apply Permutation_cons_app. now symmetry.
Qed.

Lemma connections_groupby_mean (prefix connector : string)
    (cs : list edge) :
  connections (groupby_mean prefix connector cs)
  = map (fun k => (make_index prefix connector (fst k) (snd k),
                   fst k, snd k)) (group_keys cs).
Proof.
  unfold connections, groupby_mean. rewrite map_map. reflexivity.
Qed.

Lemma connections_app (t1 t2 : list row) :
  connections (t1 ++ t2) = (connections t1 ++ connections t2)%list.
Proof. apply map_app. Qed.

Lemma connections_reverse (prefix connector : string) (topo : list row) :
  connections (map (reverse_row prefix connector) topo)
  = map (fun t => (make_index prefix connector (snd t) (snd (fst t)),
                   snd t, snd (fst t))) (connections topo).
Proof.
  unfold connections. rewrite !map_map. reflexivity.
Qed.

(** The index and the bus columns of the topology depend on the candidate
    edges only through the set of their canonical bus pairs: two networks
    whose candidates differ in the order of the rows, in the direction in
    which an edge is entered, in how often a connection is entered, or in
    the lengths, get frames with the same rows in the same order as far as
    the index, [bus0] and [bus1] go. *)
Theorem topology_ignores_direction_and_order (prefix connector : string)
    (n n' : network) (bidirectional : bool) :
  (forall k, In k (map key_of (map canonical (raw_candidates n)))
             <-> In k (map key_of (map canonical (raw_candidates n')))) ->
  connections (create_network_topology prefix connector n bidirectional)
  = connections (create_network_topology prefix connector n' bidirectional).
Proof.
  intros H. unfold create_network_topology.
  assert (Hk : group_keys (normalize (raw_candidates n))
               = group_keys (normalize (raw_candidates n'))).
  { apply sorted_same_elements; try apply group_keys_sorted.
    intros k. rewrite !In_group_keys_iff.
    assert (Hn : forall cs, In k (map key_of (normalize cs))
                            <-> In k (map key_of (map canonical cs))).
    { intros cs. split; apply Permutation_in, Permutation_map;
        [|symmetry]; apply normalize_canonical. }
    rewrite !Hn. apply H. }
  assert (E : connections (groupby_mean prefix connector
                             (normalize (raw_candidates n)))
              = connections (groupby_mean prefix connector
                               (normalize (raw_candidates n')))).
  { rewrite !connections_groupby_mean. now rewrite Hk. }
  destruct (negb bidirectional); [|exact E].
  rewrite !connections_app.
  rewrite !connections_reverse. now rewrite E.
Qed.

Lemma topology_ignores_direction_and_order_witness :
  connections (create_network_topology "" " <-> " two_way_network false)
  = connections (create_network_topology "" " <-> " one_way_network false).
Proof.
  apply topology_ignores_direction_and_order. intros k. cbn. tauto.
Defined.

End TopologyLaws.

Module CountryNamesFacts.
Import CountryNames.

(** *** Prefixes and the separator *)

Lemma prefix_append (w rest : string) : String.prefix w (w ++ rest) = true.
Proof.
  induction w as [|c w IH]; cbn.
  - now destruct rest.
  - destruct (ascii_dec c c); [exact IH | contradiction].
Qed.

Lemma drop_append (w rest : string) : drop (String.length w) (w ++ rest) = rest.
Proof. induction w as [|c w IH]; cbn; [reflexivity | exact IH]. Qed.

Lemma string_append_assoc (a b c : string) :
  ((a ++ b) ++ c = a ++ (b ++ c))%string.
Proof. induction a as [|x a IH]; cbn; [reflexivity | now rewrite IH]. Qed.

Lemma prefix_split (w s : string) :
  String.prefix w s = true -> s = (w ++ drop (String.length w) s)%string.
Proof.
  revert s. induction w as [|c w IH]; intros s H; [reflexivity|].
  destruct s as [|d s]; [discriminate|]. cbn in H |- *.
  destruct (ascii_dec c d) as [-> | ]; [|discriminate].
  f_equal. now apply IH.
Qed.

Lemma remove_first_prefix (w s : string) :
  String.prefix w s = true -> remove_first w s = drop (String.length w) s.
Proof. intros H. destruct s; cbn [remove_first]; now rewrite H. Qed.

Lemma remove_first_append (w rest : string) :
  remove_first w (w ++ rest) = rest.
Proof.
  rewrite remove_first_prefix by apply prefix_append. apply drop_append.
Qed.

Lemma prefix_comma_space (c c2 : ascii) (s : string) :
  String.prefix ", " (String c (String c2 s))
  = Ascii.eqb c "," && Ascii.eqb c2 " ".
Proof.
  cbn [String.prefix].
  destruct (ascii_dec "," c) as [<- | Hc].
  - destruct (ascii_dec " " c2) as [<- | Hc2]; [now destruct s|].
    cbn. symmetry. apply Ascii.eqb_neq. congruence.
  - symmetry. apply andb_false_iff. left. apply Ascii.eqb_neq. congruence.
Qed.

Lemma no_sep_tail (c : ascii) (s : string) :
  Str.str_contains ", " (String c s) = false ->
  String.prefix ", " (String c s) = false
  /\ Str.str_contains ", " s = false.
Proof.
  cbn [Str.str_contains]. intros H. now apply orb_false_iff in H.
Qed.

(** A string without the separator is its only piece. *)
Lemma split_comma_none (s : string) :
  Str.str_contains ", " s = false -> split_comma s = [s].
Proof.
  induction s as [|c s IH]; [reflexivity|].
  intros H. apply no_sep_tail in H. destruct H as [Hp Hs].
  cbn [split_comma]. rewrite (IH Hs).
  destruct s as [|c2 s2]; [reflexivity|].
  rewrite prefix_comma_space in Hp. now rewrite Hp.
Qed.

(** The first piece ends at the first separator. *)
Lemma split_comma_append (a b : string) :
  Str.str_contains ", " a = false ->
  split_comma (a ++ ", " ++ b) = a :: split_comma b.
Proof.
  induction a as [|c a IH]; [reflexivity|].
  intros H. apply no_sep_tail in H. destruct H as [Hp Hs].
  specialize (IH Hs). cbn [append] in IH.
  cbn [append split_comma]. rewrite IH.
  destruct a as [|c2 a2].
  - cbn [append]. now rewrite andb_false_r.
  - cbn [append]. rewrite prefix_comma_space in Hp. now rewrite Hp.
Qed.

Section Converter.

Variable coco_convert : string -> string -> string.

Local Abbreviation two_digits_2_name_country :=
  (two_digits_2_name_country coco_convert).
Local Abbreviation country_name_2_two_digits :=
  (country_name_2_two_digits coco_convert).

(** The recursive equation of the source holds for the definition. *)
Lemma two_digits_2_name_country_eq (two_code_country name_string : string)
    (no_comma : bool) (remove_start_words : option (list string)) :
  two_digits_2_name_country two_code_country name_string no_comma
    remove_start_words
  = if String.eqb two_code_country "SN-GM" then
      two_digits_2_name_country "SN" "name_short" false (Some [])
      ++ "-" ++ two_digits_2_name_country "GM" "name_short" false (Some [])
    else
      name_of_code coco_convert two_code_country name_string no_comma
        match remove_start_words with None => [] | Some l => l end.
Proof. reflexivity. Qed.

(** The composite code ["SN-GM"] makes a round trip through the two
    functions whatever the converter answers and whatever options the name
    is asked with: the options are not passed on to the two inner calls,
    so the name is always the two short names joined by a dash, which is
    the string [country_name_2_two_digits] compares its argument with. *)
Theorem composite_name_round_trip (name_string : string) (no_comma : bool)
    (remove_start_words : option (list string)) :
  two_digits_2_name_country "SN-GM" name_string no_comma remove_start_words
  = (coco_convert "SN" "name_short" ++ "-"
     ++ coco_convert "GM" "name_short")%string
  /\ country_name_2_two_digits
      (two_digits_2_name_country "SN-GM" name_string no_comma
         remove_start_words) = "SN-GM".
Proof.
  split; [reflexivity|].
  unfold CountryNames.country_name_2_two_digits,
    CountryNames.two_digits_2_name_country.
  cbn [String.eqb Ascii.eqb Bool.eqb]. now rewrite String.eqb_refl.
Qed.

(** With [no_comma] set, a name "A, B" whose parts hold no further
    separator becomes "B A", and a name without the separator is left as it
    is. *)
Theorem no_comma_swaps_parts (two_code_country name_string a b : string) :
  two_code_country <> "SN-GM" ->
  Str.str_contains ", " a = false ->
  Str.str_contains ", " b = false ->
  (coco_convert two_code_country name_string = (a ++ ", " ++ b)%string ->
   two_digits_2_name_country two_code_country name_string true None
   = (b ++ " " ++ a)%string)
  /\ (coco_convert two_code_country name_string = a ->
      two_digits_2_name_country two_code_country name_string true None = a).
Proof.
  intros Hne Ha Hb. apply String.eqb_neq in Hne.
  unfold CountryNames.two_digits_2_name_country, name_of_code,
    reverse_comma_parts. rewrite Hne. split; intros ->.
  - rewrite (split_comma_append a b Ha), (split_comma_none b Hb).
    reflexivity.
  - now rewrite (split_comma_none a Ha).
Qed.

Lemma remove_start_suffix (words : list string) (name : string) :
  exists pre, name = (pre ++ remove_start words name)%string.
Proof.
  unfold remove_start. revert name.
  induction words as [|w words IH]; intros name; cbn [fold_left].
  - exists EmptyString. reflexivity.
  - destruct (String.prefix w name) eqn:E; [|apply IH].
    destruct (IH (remove_first w name)) as (pre & Hpre).
    exists (w ++ pre)%string.
    rewrite (prefix_split w name E) at 1.
    rewrite <- (remove_first_prefix w name E).
    rewrite Hpre at 1. now rewrite string_append_assoc.
Qed.

(** Removing a start word takes exactly the word away, so the blank that
    followed it now begins the name; a word that the name does not start
    with leaves it as it is; and whatever the list of words, what is
    returned is an ending of the converted name. *)
Theorem start_words_are_cut (two_code_country name_string : string)
    (words : list string) (w rest : string) :
  two_code_country <> "SN-GM" ->
  (coco_convert two_code_country name_string = (w ++ rest)%string ->
   two_digits_2_name_country two_code_country name_string false (Some [w])
   = rest)
  /\ (String.prefix w (coco_convert two_code_country name_string) = false ->
      two_digits_2_name_country two_code_country name_string false
        (Some [w])
      = coco_convert two_code_country name_string)
  /\ exists pre,
       coco_convert two_code_country name_string
       = (pre ++ two_digits_2_name_country two_code_country name_string
                   false (Some words))%string.
Proof.
  intros Hne. apply String.eqb_neq in Hne.
  unfold CountryNames.two_digits_2_name_country, name_of_code.
  rewrite Hne. split; [|split].
  - intros ->. unfold remove_start. cbn [fold_left].
    now rewrite prefix_append, remove_first_append.
  - intros H. unfold remove_start. cbn [fold_left]. now rewrite H.
  - destruct words as [|w0 words]; [now exists EmptyString|].
    apply remove_start_suffix.
Qed.


End Converter.

Lemma no_comma_swaps_parts_witness :
  two_digits_2_name_country sample_convert "CD" "name_short" true None
  = "The Democratic Republic of Congo".
Proof.
  exact (proj1 (no_comma_swaps_parts sample_convert "CD" "name_short"
                  "Congo" "The Democratic Republic of"
                  ltac:(discriminate) eq_refl eq_refl) eq_refl).
Defined.

Lemma start_words_are_cut_witness :
  two_digits_2_name_country sample_convert "GM" "name_short" false
    (Some ["Gam"]) = "bia".
Proof.
  exact (proj1 (start_words_are_cut sample_convert "GM" "name_short" []
                  "Gam" "bia" ltac:(discriminate)) eq_refl).
Defined.

End CountryNamesFacts.

Module CountryListFacts.
Import CountryList.

Lemma nodup_is_list_of_set : is_list_of_set (nodup string_dec).
Proof.
  intros l. split; [apply NoDup_nodup|]. intros c. apply nodup_In.
Qed.

Lemma filter_codes_In (l : list string) (iso_coding : bool) (c : string) :
  In c (filter_codes l iso_coding)
  <-> In c l /\ (iso_coding = true -> String.length c = 2%nat).
Proof.
  unfold filter_codes. destruct iso_coding.
  - rewrite filter_In, Nat.eqb_eq. intuition.
  - intuition. discriminate.
Qed.

Lemma filter_codes_NoDup (l : list string) (iso_coding : bool) :
  NoDup l -> NoDup (filter_codes l iso_coding).
Proof.
  unfold filter_codes. destruct iso_coding; [apply NoDup_filter | auto].
Qed.

Section Config.

Variable world_iso : dict (list string).
Variable continent_regions : dict (list string).
Variable list_of_set : list string -> list string.

Local Abbreviation expand := (expand world_iso continent_regions).
Local Abbreviation create_country_list :=
  (create_country_list world_iso continent_regions list_of_set).

Lemma country_list_members_aux (input : list string) (iso_coding : bool) :
  is_list_of_set list_of_set ->
  NoDup (create_country_list input iso_coding)
  /\ (forall c, In c (create_country_list input iso_coding)
        <-> (exists value1, In value1 input /\ In c (expand value1))
            /\ (iso_coding = true -> String.length c = 2%nat)).
Proof.
  intros Hset. split.
  - unfold CountryList.create_country_list. cbn zeta.
    apply filter_codes_NoDup, Hset.
  - intros c. unfold CountryList.create_country_list. cbn zeta.
    rewrite filter_codes_In, (proj2 (Hset _)), in_concat.
    split.
    + intros [(l & Hl & Hc) Hiso]. split; [|exact Hiso].
      apply in_map_iff in Hl. destruct Hl as (v & <- & Hv). eauto.
    + intros [(v & Hv & Hc) Hiso]. split; [|exact Hiso].
      exists (expand v). split; [now apply in_map | exact Hc].
Qed.

(** The list returned holds no code twice; a code is in it exactly when
    some entry of [input] expands to it and, with ISO coding, it has two
    characters.  In particular a two-character entry that is neither
    ["Earth"] nor the name of a continent or region is returned as it is,
    and with ISO coding every returned code has two characters. *)
Theorem country_list_members (input : list string) (iso_coding : bool) :
  is_list_of_set list_of_set ->
  NoDup (create_country_list input iso_coding)
  /\ (forall c, In c (create_country_list input iso_coding)
        <-> (exists value1, In value1 input /\ In c (expand value1))
            /\ (iso_coding = true -> String.length c = 2%nat))
  /\ (forall c, In c input -> String.length c = 2%nat ->
        dict_get world_iso c = None ->
        dict_get continent_regions c = None ->
        In c (create_country_list input iso_coding)).
Proof.
  intros Hset.
  destruct (country_list_members_aux input iso_coding Hset) as [Hnd Hmem].
  split; [exact Hnd|]. split; [exact Hmem|].
  intros c Hin Hlen Hw Hr. apply Hmem. split; [|auto].
  exists c. split; [exact Hin|].
  unfold CountryList.expand. rewrite Hw, Hr.
  destruct (String.eqb_spec c "Earth") as [-> | _]; [discriminate|].
  now left.
Qed.

(** Repeating or reordering the entries of [input] does not change the
    result but for the order of its codes. *)
Theorem country_list_ignores_duplicates (input input' : list string)
    (iso_coding : bool) :
  is_list_of_set list_of_set ->
  (forall value1, In value1 input <-> In value1 input') ->
  Permutation (create_country_list input iso_coding)
              (create_country_list input' iso_coding).
Proof.
  intros Hset Hsame.
  destruct (country_list_members_aux input iso_coding Hset) as [Hnd Hmem].
  destruct (country_list_members_aux input' iso_coding Hset) as [Hnd' Hmem'].
  apply NoDup_Permutation; [exact Hnd | exact Hnd'|].
  intros c. rewrite Hmem, Hmem'. split; intros [(v & Hv & Hc) Hiso];
    (split; [exists v; split; [now apply Hsame | exact Hc] | exact Hiso]).
Qed.

End Config.

Lemma country_list_members_witness :
  In "MA" (sample_create_country_list ["MA"; "TEST"; "MA"] true)
  /\ NoDup (sample_create_country_list ["MA"; "TEST"; "MA"] true).
Proof.
  destruct (country_list_members sample_world_iso sample_continent_regions
              (nodup string_dec) ["MA"; "TEST"; "MA"] true
              nodup_is_list_of_set) as (Hnd & _ & Hin).
  split; [|exact Hnd].
  apply Hin; [now left | reflexivity..].
Defined.

Lemma country_list_ignores_duplicates_witness :
  Permutation (sample_create_country_list ["NG"; "ZA"; "NG"] true)
              (sample_create_country_list ["ZA"; "NG"] true).
Proof.
  apply (country_list_ignores_duplicates sample_world_iso
           sample_continent_regions (nodup string_dec)
           ["NG"; "ZA"; "NG"] ["ZA"; "NG"] true nodup_is_list_of_set).
  intros v. cbn. tauto.
Defined.

End CountryListFacts.

Module CommodityFacts.
Import Commodity.

(** *** Characters *)

Lemma lower_idempotent (c : ascii) : lower (lower c) = lower c.
Proof. destruct c as [[] [] [] [] [] [] [] []]; reflexivity. Qed.

Lemma is_space_lower (c : ascii) : is_space (lower c) = is_space c.
Proof. destruct c as [[] [] [] [] [] [] [] []]; reflexivity. Qed.

(** *** Stripping *)

Lemma casefold_idempotent (s : string) : casefold (casefold s) = casefold s.
Proof.
  induction s as [|c s IH]; cbn; [reflexivity|].
  now rewrite lower_idempotent, IH.
Qed.

Lemma lstrip_casefold (s : string) : lstrip (casefold s) = casefold (lstrip s).
Proof.
  induction s as [|c s IH]; cbn; [reflexivity|].
  rewrite is_space_lower. destruct (is_space c); [exact IH | reflexivity].
Qed.

Lemma rstrip_casefold (s : string) : rstrip (casefold s) = casefold (rstrip s).
Proof.
  induction s as [|c s IH]; cbn [casefold rstrip]; [reflexivity|].
  rewrite IH, is_space_lower.
  destruct (rstrip s); cbn [casefold]; [|reflexivity].
  destruct (is_space c); reflexivity.
Qed.

Lemma strip_casefold (s : string) : strip (casefold s) = casefold (strip s).
Proof. unfold strip. now rewrite lstrip_casefold, rstrip_casefold. Qed.

Lemma rstrip_idempotent (s : string) : rstrip (rstrip s) = rstrip s.
Proof.
  induction s as [|c s IH]; [reflexivity|]. cbn [rstrip].
  destruct (rstrip s) as [|d kept] eqn:E.
  - destruct (is_space c) eqn:Ec; [reflexivity|]. cbn. now rewrite Ec.
  - cbn [rstrip]. cbn [rstrip] in IH. now rewrite IH.
Qed.

(** A string that does not begin with a space keeps its beginning. *)
Lemma lstrip_fixed (c : ascii) (s : string) :
  is_space c = false -> lstrip (String c s) = String c s.
Proof. intros H. cbn. now rewrite H. Qed.

Lemma lstrip_shape (s : string) :
  lstrip s = EmptyString
  \/ exists c s', lstrip s = String c s' /\ is_space c = false.
Proof.
  induction s as [|c s IH]; [now left|]. cbn.
  destruct (is_space c) eqn:E; [exact IH|]. right. eauto.
Qed.

Lemma lstrip_rstrip_stripped (c : ascii) (s : string) :
  is_space c = false -> lstrip (rstrip (String c s)) = rstrip (String c s).
Proof.
  intros H. cbn [rstrip]. destruct (rstrip s); [rewrite H|];
    now apply lstrip_fixed.
Qed.

Lemma strip_idempotent (s : string) : strip (strip s) = strip s.
Proof.
  unfold strip. destruct (lstrip_shape s) as [E | (c & s' & E & Hc)];
    rewrite E.
  - reflexivity.
  - rewrite (lstrip_rstrip_stripped c s' Hc). apply rstrip_idempotent.
Qed.

Lemma lstrip_pad (pad s : string) :
  all_space pad = true -> lstrip (pad ++ s) = lstrip s.
Proof.
  induction pad as [|c pad IH]; cbn; [reflexivity|].
  intros H. apply andb_true_iff in H. destruct H as [Hc Hp].
  rewrite Hc. now apply IH.
Qed.

Lemma rstrip_all_space (pad : string) :
  all_space pad = true -> rstrip pad = EmptyString.
Proof.
  induction pad as [|c pad IH]; cbn; [reflexivity|].
  intros H. apply andb_true_iff in H. destruct H as [Hc Hp].
  now rewrite (IH Hp), Hc.
Qed.

Lemma rstrip_pad (s pad : string) :
  all_space pad = true -> rstrip (s ++ pad) = rstrip s.
Proof.
  intros H. induction s as [|c s IH]; cbn [append rstrip].
  - now apply rstrip_all_space.
  - now rewrite IH.
Qed.

Lemma lstrip_append (s t : string) :
  lstrip (s ++ t) = match lstrip s with
                    | EmptyString => lstrip t
                    | kept => (kept ++ t)%string
                    end.
Proof.
  induction s as [|c s IH]; cbn [append lstrip]; [reflexivity|].
  destruct (is_space c); [exact IH | reflexivity].
Qed.

Lemma lstrip_all_space (pad : string) :
  all_space pad = true -> lstrip pad = EmptyString.
Proof.
  induction pad as [|c pad IH]; cbn; [reflexivity|].
  intros H. apply andb_true_iff in H. destruct H as [Hc Hp].
  rewrite Hc. now apply IH.
Qed.

Lemma strip_pad (l s r : string) :
  all_space l = true -> all_space r = true -> strip (l ++ s ++ r) = strip s.
Proof.
  intros Hl Hr. unfold strip. rewrite (lstrip_pad l _ Hl), lstrip_append.
  destruct (lstrip s) as [|c kept] eqn:E.
  - now rewrite (lstrip_all_space r Hr).
  - now apply rstrip_pad.
Qed.

(** *** [modify_commodity] *)

(** Only the stripped argument counts. *)
Lemma modify_commodity_strip (commodity : string) :
  modify_commodity (strip commodity) = modify_commodity commodity.
Proof.
  unfold modify_commodity. rewrite !strip_idempotent.
  repeat match goal with
         | |- context [if ?b then _ else _] => destruct b; [reflexivity|]
         end.
  now rewrite strip_idempotent.
Qed.

(** Blanks, tabs and line ends before and after the name do not count. *)
Theorem modify_commodity_ignores_padding (l commodity r : string) :
  all_space l = true -> all_space r = true ->
  modify_commodity (l ++ commodity ++ r) = modify_commodity commodity.
Proof.
  intros Hl Hr.
  rewrite <- (modify_commodity_strip (l ++ commodity ++ r)).
  rewrite (strip_pad l commodity r Hl Hr).
  apply modify_commodity_strip.
Qed.

Lemma modify_commodity_ignores_padding_witness :
  modify_commodity "  Hrad coal " = "hard coal".
Proof.
  exact (eq_trans
           (modify_commodity_ignores_padding "  " "Hrad coal" " " eq_refl
              eq_refl)
           eq_refl).
Defined.

Lemma casefold_fixed_eq (s t : string) :
  casefold s = s -> casefold t <> t -> String.eqb s t = false.
Proof. intros Hs Ht. apply String.eqb_neq. intros ->. contradiction. Qed.

(** Either one of the six spellings was put in place, or the argument
    itself is stripped and folded. *)
Lemma modify_commodity_cases (commodity : string) :
  In (modify_commodity commodity) fixed_outputs
  \/ (modify_commodity commodity = casefold (strip commodity)
      /\ String.eqb (casefold (strip commodity)) "coke oven gas" = false
      /\ String.eqb (casefold (strip commodity)) "coke oven coke" = false).
Proof.
  unfold modify_commodity, fixed_outputs.
  destruct (String.eqb (strip commodity) "Hrad coal");
    [left; cbn; tauto|].
  destruct (String.eqb (casefold (strip commodity)) "coke oven gas");
    [left; cbn; tauto|].
  destruct (String.eqb (casefold (strip commodity)) "coke oven coke");
    [left; cbn; tauto|].
  destruct (String.eqb (strip commodity) "Liquified Petroleum Gas (LPG)");
    [left; cbn; tauto|].
  destruct (String.eqb (strip commodity) "Gas Oil/Diesel Oil");
    [left; cbn; tauto|].
  destruct (String.eqb (strip commodity)
              "Lignite brown coal- recoverable resources");
    [left; cbn; tauto|].
  right. auto.
Qed.

Lemma fixed_outputs_fixed :
  Forall (fun out => modify_commodity out = out) fixed_outputs.
Proof. repeat constructor. Qed.

(** What [modify_commodity] returns is stripped and in small letters, and
    the function leaves it as it is: applying it twice is applying it
    once. *)
Theorem modify_commodity_idempotent (commodity : string) :
  strip (modify_commodity commodity) = modify_commodity commodity
  /\ casefold (modify_commodity commodity) = modify_commodity commodity
  /\ modify_commodity (modify_commodity commodity)
     = modify_commodity commodity.
Proof.
  assert (Hnf : forall s, strip (casefold (strip s)) = casefold (strip s)).
  { intros s. now rewrite strip_casefold, strip_idempotent. }
  assert (Hcf : forall s, casefold (casefold (strip s)) = casefold (strip s))
    by (intros s; apply casefold_idempotent).
  split; [unfold modify_commodity; apply Hnf|].
  split; [unfold modify_commodity; apply Hcf|].
  destruct (modify_commodity_cases commodity) as [Hconst | (E & H1 & H2)].
  - pose proof fixed_outputs_fixed as Hfix.
    rewrite Forall_forall in Hfix. now apply Hfix.
  - rewrite E. set (out := casefold (strip commodity)) in *.
    assert (Hs : strip out = out) by apply Hnf.
    assert (Hc : casefold out = out) by apply Hcf.
    unfold modify_commodity. rewrite Hs, Hc.
    rewrite (casefold_fixed_eq out "Hrad coal" Hc) by discriminate.
    rewrite H1, H2.
    rewrite (casefold_fixed_eq out "Liquified Petroleum Gas (LPG)" Hc)
      by discriminate.
    rewrite (casefold_fixed_eq out "Gas Oil/Diesel Oil" Hc) by discriminate.
    rewrite (casefold_fixed_eq out
               "Lignite brown coal- recoverable resources" Hc)
      by discriminate.
    now rewrite Hs, Hc.
Qed.

(** *** The tables *)

(** Every fuel name listed by [aggregate_fuels] and every key of the
    dictionary of [get_conv_factors] is left as it is by
    [modify_commodity], so a name brought to that form can be looked up in
    them; no fuel is listed in two of the categories, and no key occurs
    twice in the dictionary. *)
Theorem table_names_are_normal_forms :
  (forall fuels name,
     aggregate_fuels "industry" = Some fuels ->
     In name (List.concat fuels) -> modify_commodity name = name)
  /\ (forall factors name,
        get_conv_factors "industry" = Some factors ->
        In name (map fst factors) -> modify_commodity name = name)
  /\ NoDup (List.concat [gas_fuels; oil_fuels; biomass_fuels; coal_fuels;
                         heat; electricity])
  /\ NoDup (map fst conversion_factors_dict).
Proof.
  assert (Hall : forall l,
            forallb (fun n => String.eqb (modify_commodity n) n) l = true ->
            forall name, In name l -> modify_commodity name = name).
  { intros l H name Hin. rewrite forallb_forall in H.
    now apply String.eqb_eq, H. }
  assert (Hnd : forall l : list string, nodup string_dec l = l -> NoDup l).
  { intros l E. rewrite <- E. apply NoDup_nodup. }
  split; [|split; [|split]].
  - intros fuels name E. cbn in E. injection E as <-.
    apply Hall. vm_compute. reflexivity.
  - intros factors name E. cbn in E. injection E as <-.
    apply Hall. vm_compute. reflexivity.
  - apply Hnd. vm_compute. reflexivity.
  - apply Hnd. vm_compute. reflexivity.
Qed.

End CommodityFacts.

Module GeneratorsFacts.
Import Generators.

Lemma fle_refl (a : float) : a <> NaN -> fle a a = true.
Proof.
  destruct a; cbn; try congruence; intros _.
  apply Qle_bool_iff, Qle_refl.
Qed.

Lemma fle_total (a b : float) :
  a <> NaN -> b <> NaN -> fle b a = false -> fle a b = true.
Proof.
  destruct a, b; cbn; try congruence; intros _ _ H.
  apply Qle_bool_iff. apply Qlt_le_weak, Qnot_le_lt. intros Hle.
  apply Qle_bool_iff in Hle. congruence.
Qed.

Lemma row_max_bounds (a b : float) :
  (a <> NaN -> fle a (row_max a b) = true)
  /\ (b <> NaN -> fle b (row_max a b) = true)
  /\ (row_max a b = a \/ row_max a b = b)
  /\ (row_max a b = NaN -> a = NaN /\ b = NaN).
Proof.
  assert (Ha : a = NaN \/ a <> NaN) by (destruct a; auto; right; discriminate).
  assert (Hb : b = NaN \/ b <> NaN) by (destruct b; auto; right; discriminate).
  destruct Ha as [-> | Ha], Hb as [-> | Hb].
  - cbn. repeat split; auto; congruence.
  - cbn. repeat split; auto; try congruence. intros _. now apply fle_refl.
  - assert (E : row_max a NaN = a) by now destruct a.
    rewrite E. repeat split; auto; try congruence.
    intros _. now apply fle_refl.
  - assert (E : row_max a b = if fle b a then a else b)
      by (destruct a, b; cbn; congruence).
    rewrite E. destruct (fle b a) eqn:L.
    + repeat split; auto; try congruence. intros _. now apply fle_refl.
    + repeat split; auto; try congruence.
      * intros _. now apply fle_total.
      * intros _. now apply fle_refl.
Qed.

Lemma row_max_idempotent (a b : float) :
  row_max a (row_max a b) = row_max a b.
Proof.
  destruct a as [| |p|], b as [| |q|]; cbn; try reflexivity;
    repeat match goal with
           | |- context [Qle_bool ?u ?v] =>
               let L := fresh "L" in
               destruct (Qle_bool u v) eqn:L; cbn; rewrite ?L
           end;
    reflexivity.
Qed.

(** After [update_p_nom_max] every generator keeps its name and its
    [p_nom_min]; its [p_nom_max] is one of the two old values, is missing
    only if both were, is not below [p_nom_min] and not below the old
    [p_nom_max] (where these are not missing). *)
Theorem p_nom_max_covers_p_nom_min (generators : list generator) (i : nat)
    (g : generator) :
  nth_error generators i = Some g ->
  exists g',
    nth_error (update_p_nom_max generators) i = Some g'
    /\ name g' = name g /\ p_nom_min g' = p_nom_min g
    /\ (p_nom_min g <> NaN -> fle (p_nom_min g') (p_nom_max g') = true)
    /\ (p_nom_max g <> NaN -> fle (p_nom_max g) (p_nom_max g') = true)
    /\ (p_nom_max g' = p_nom_min g \/ p_nom_max g' = p_nom_max g)
    /\ (p_nom_max g' = NaN -> p_nom_min g = NaN /\ p_nom_max g = NaN).
Proof.
  intros H. eexists. split.
  - unfold update_p_nom_max. apply map_nth_error. exact H.
  - cbn [name p_nom_min p_nom_max].
    destruct (row_max_bounds (p_nom_min g) (p_nom_max g))
      as (Ha & Hb & Hor & Hnan).
    auto 10.
Qed.

Lemma p_nom_max_covers_p_nom_min_witness :
  exists g',
    nth_error (update_p_nom_max sample_generators) 0 = Some g'
    /\ p_nom_max g' = Fin 120.
Proof.
  destruct (p_nom_max_covers_p_nom_min sample_generators 0 _ eq_refl)
    as (g' & Hnth & _).
  exists g'. split; [exact Hnth|].
  cbn in Hnth. injection Hnth as <-. reflexivity.
Defined.

(** Updating twice is updating once. *)
Theorem update_p_nom_max_idempotent (generators : list generator) :
  update_p_nom_max (update_p_nom_max generators)
  = update_p_nom_max generators.
Proof.
  unfold update_p_nom_max. rewrite map_map. apply map_ext. intros g.
  cbn [name p_nom_min p_nom_max]. now rewrite row_max_idempotent.
Qed.

End GeneratorsFacts.

Module NaturaGridFacts.
Import NaturaGrid.
Local Open Scope Q_scope.

Lemma floor_div_bounds (x : Q) (r : Z) :
  0 < inject_Z r ->
  floor_div x r * inject_Z r <= x
  /\ x < (floor_div x r + 1) * inject_Z r.
Proof.
  intros Hres. unfold floor_div. set (res := inject_Z r) in *.
  assert (Hne : ~ res == 0) by (intros E; rewrite E in Hres; discriminate).
  assert (Hx : x == x / res * res) by (field; exact Hne).
  split.
  - rewrite Hx at 2. apply Qmult_le_compat_r; [apply Qfloor_le|].
    now apply Qlt_le_weak.
  - rewrite Hx at 1. apply Qmult_lt_compat_r; [exact Hres|].
    rewrite <- (inject_Z_plus _ 1). apply Qlt_floor.
Qed.

Lemma floor_div_monotone (x y res : Q) :
  0 < res -> x <= y -> (Qfloor (x / res) <= Qfloor (y / res))%Z.
Proof.
  intros Hres Hxy. apply Qfloor_resp_le.
  unfold Qdiv. apply Qmult_le_compat_r; [exact Hxy|].
  apply Qlt_le_weak, Qinv_lt_0_compat, Hres.
Qed.

Lemma int_of_integer (q : Q) (z : Z) : q == inject_Z z -> int q = z.
Proof.
  unfold int, Qeq. cbn. intros H. rewrite Z.mul_1_r in H. rewrite H.
  apply Z.quot_mul. discriminate.
Qed.

(** For a positive integer resolution, and bounds in the range where the
    float operations are exact, the function returns a grid that covers
    the bounds: its left and top edges are those of the transform, it has
    [w] columns and [h] rows of size [res], every edge lies on a multiple
    of [res], the left and bottom edges are at most one cell outside the
    bounds and the right and top edges are beyond them by at most one
    cell; bounds that are not inverted give at least one column and one
    row. *)
Theorem grid_covers_bounds (b0 b1 b2 b3 : Q) (r : Z) :
  (0 < r)%Z ->
  in_exact_range b0 r -> in_exact_range b1 r ->
  in_exact_range b2 r -> in_exact_range b3 r ->
  let res := inject_Z r in
  exists t h w,
    get_transform_and_shape (b0, b1, b2, b3) r = Some (t, (h, w))
    /\ af_a t = res /\ af_e t = - res /\ af_b t = 0 /\ af_d t = 0
    /\ (let left := af_c t in
        let top := af_f t in
        let right := left + inject_Z w * res in
        let bottom := top - inject_Z h * res in
        (left <= b0 /\ b0 < left + res)
        /\ (bottom <= b1 /\ b1 < bottom + res)
        /\ (b2 < right /\ right <= b2 + res)
        /\ (b3 < top /\ top <= b3 + res)
        /\ (exists k, left == inject_Z k * res)
        /\ (exists k, top == inject_Z k * res))
    /\ (b0 <= b2 -> (1 <= w)%Z)
    /\ (b1 <= b3 -> (1 <= h)%Z).
Proof.
  intros Hr _ _ _ _ res.
  assert (Hres : 0 < res).
  { unfold res. change 0 with (inject_Z 0). rewrite <- Zlt_Qlt.
    exact Hr. }
  assert (Hne : ~ res == 0) by (intros E; rewrite E in Hres; discriminate).
  assert (Hnb : (r =? 0)%Z = false) by (apply Z.eqb_neq; lia).
  set (f0 := Qfloor (b0 / res)). set (f1 := Qfloor (b1 / res)).
  set (f2 := Qfloor (b2 / res)). set (f3 := Qfloor (b3 / res)).
  assert (Hw : int (((floor_div b2 r + 1) * res - floor_div b0 r * res)
                    / res) = (f2 + 1 - f0)%Z).
  { apply int_of_integer. unfold floor_div. fold res. fold f0 f2.
    unfold Z.sub. rewrite !inject_Z_plus, inject_Z_opp. field. exact Hne. }
  assert (Hh : int (floor_div ((floor_div b3 r + 1) * res
                               - floor_div b1 r * res) r)
               = (f3 + 1 - f1)%Z).
  { apply int_of_integer. unfold floor_div at 1. fold res.
    assert (E : ((floor_div b3 r + 1) * res - floor_div b1 r * res) / res
                == inject_Z (f3 + 1 - f1)).
    { unfold floor_div. fold res. fold f1 f3.
      unfold Z.sub. rewrite !inject_Z_plus, inject_Z_opp. field. exact Hne. }
    rewrite E, Qfloor_Z. reflexivity. }
  eexists _, (f3 + 1 - f1)%Z, (f2 + 1 - f0)%Z.
  split.
  { unfold get_transform_and_shape. fold res. rewrite Hnb, Hw, Hh.
    reflexivity. }
  cbn [af_a af_b af_c af_d af_e af_f].
  repeat (split; [reflexivity|]).
  destruct (floor_div_bounds b0 r Hres) as [L0 U0].
  destruct (floor_div_bounds b1 r Hres) as [L1 U1].
  destruct (floor_div_bounds b2 r Hres) as [L2 U2].
  destruct (floor_div_bounds b3 r Hres) as [L3 U3].
  unfold floor_div in *. fold res in L0, U0, L1, U1, L2, U2, L3, U3 |- *.
  fold f0 f1 f2 f3 in L0, U0, L1, U1, L2, U2, L3, U3 |- *.
  assert (Eright : inject_Z f0 * res + inject_Z (f2 + 1 - f0) * res
                   == (inject_Z f2 + 1) * res).
  { unfold Z.sub. rewrite !inject_Z_plus, inject_Z_opp. ring. }
  assert (Ebottom : (inject_Z f3 + 1) * res - inject_Z (f3 + 1 - f1) * res
                    == inject_Z f1 * res).
  { unfold Z.sub. rewrite !inject_Z_plus, inject_Z_opp. ring. }
  split; [|split].
  - cbn zeta. rewrite Eright, Ebottom.
    repeat split; try assumption; try Lqa.lra.
    + exists f0. reflexivity.
    + exists (f3 + 1)%Z. rewrite inject_Z_plus. reflexivity.
  - intros H. pose proof (floor_div_monotone b0 b2 res Hres H). lia.
  - intros H. pose proof (floor_div_monotone b1 b3 res Hres H). lia.
Qed.

Lemma grid_covers_bounds_witness :
  get_transform_and_shape (1234567 # 100, - (250), 20000, 9999 # 10) 100
  = Some ({| af_a := 100; af_b := 0; af_c := 12300;
             af_d := 0; af_e := - (100); af_f := 1000 |}, (13%Z, 78%Z)).
Proof.
  destruct (grid_covers_bounds (1234567 # 100) (- (250)) 20000 (9999 # 10)
              100 eq_refl ltac:(vm_compute; discriminate)
              ltac:(vm_compute; discriminate)
              ltac:(vm_compute; discriminate)
              ltac:(vm_compute; discriminate))
    as (t & h & w & Hrun & _).
  reflexivity.
Defined.

End NaturaGridFacts.

Module HydrogenPipelinesFacts.
Import HydrogenPipelines.
Import TopologyFacts TopologyOrder TopologyLaws.

Lemma seen_before_In (k : Topology.key) (seen : list Topology.key) :
  seen_before k seen = true <-> In k seen.
Proof.
  unfold seen_before. rewrite existsb_exists. split.
  - intros (k' & Hin & E). apply key_eqb_eq in E. now subst.
  - intros Hin. exists k. split; [exact Hin | now apply key_eqb_eq].
Qed.

Lemma keep_first_In (seen : list Topology.key) (cs : list pipe) (c : pipe) :
  In c (keep_first seen cs) -> In c cs /\ ~ In (sorted_pair c) seen.
Proof.
  revert seen. induction cs as [|c0 rest IH]; intros seen; cbn [keep_first];
    [contradiction|].
  destruct (seen_before (sorted_pair c0) seen) eqn:E.
  - intros H. destruct (IH _ H). split; [now right | assumption].
  - intros [<- | H].
    + split; [now left|]. intros Hin. apply seen_before_In in Hin. congruence.
    + destruct (IH _ H) as [Hin Hnot]. split; [now right|].
      intros Hs. apply Hnot. now right.
Qed.

Lemma keep_first_NoDup (seen : list Topology.key) (cs : list pipe) :
  NoDup (map sorted_pair (keep_first seen cs)).
Proof.
  revert seen. induction cs as [|c0 rest IH]; intros seen; cbn [keep_first];
    [constructor|].
  destruct (seen_before (sorted_pair c0) seen); [apply IH|].
  cbn [map]. constructor; [|apply IH].
  intros Hin. apply in_map_iff in Hin. destruct Hin as (c & E & Hc).
  apply keep_first_In in Hc. destruct Hc as [_ Hnot].
  apply Hnot. rewrite E. now left.
Qed.

Lemma keep_first_complete (seen : list Topology.key) (cs : list pipe)
    (c : pipe) :
  In c cs ->
  In (sorted_pair c) seen
  \/ In (sorted_pair c) (map sorted_pair (keep_first seen cs)).
Proof.
  revert seen. induction cs as [|c0 rest IH]; intros seen; [contradiction|].
  cbn [keep_first]. intros [-> | Hin].
  - destruct (seen_before (sorted_pair c) seen) eqn:E.
    + left. now apply seen_before_In.
    + right. now left.
  - destruct (seen_before (sorted_pair c0) seen) eqn:E; [now apply IH|].
    destruct (IH (sorted_pair c0 :: seen) Hin) as [[<- | H] | H].
    + right. now left.
    + now left.
    + right. now right.
Qed.

(** Among the pipelines added, no two join the same two buses, in either
    direction; each is a candidate row (a line or a DC link), and every
    candidate row has a pipeline between its two buses. *)
Theorem one_pipeline_per_connection (n : Topology.network) :
  NoDup (map sorted_pair (h2_links n))
  /\ (forall c, In c (h2_links n) -> In c (candidates n))
  /\ (forall c, In c (candidates n) ->
        exists c', In c' (h2_links n) /\ sorted_pair c' = sorted_pair c).
Proof.
  unfold h2_links. split; [apply keep_first_NoDup|]. split.
  - intros c Hc. now apply keep_first_In in Hc.
  - intros c Hc.
    destruct (keep_first_complete [] _ c Hc) as [[] | H].
    apply in_map_iff in H. destruct H as (c' & E & Hc'). eauto.
Qed.

(** *** The pipelines and the rows of the topology *)

Lemma fix_underwater_fraction_DC (n : Topology.network) :
  map (fun l => (Topology.lk_bus0 l, Topology.lk_bus1 l))
    (filter (fun l => String.eqb (Topology.lk_carrier l) "DC")
       (Topology.fix_underwater_fraction n))
  = map (fun l => (Topology.lk_bus0 l, Topology.lk_bus1 l))
      (filter (fun l => String.eqb (Topology.lk_carrier l) "DC")
         (Topology.links n)).
Proof.
  unfold Topology.fix_underwater_fraction.
  destruct (Topology.links_has_underwater_fraction n); [reflexivity|].
  generalize (match Topology.links n with
              | [] => None
              | _ :: _ => Some 0%Q
              end).
  intros fill. induction (Topology.links n) as [|l rest IH];
    [reflexivity|].
  cbn [map filter Topology.lk_carrier].
  destruct (String.eqb (Topology.lk_carrier l) "DC"); cbn [map];
    now rewrite IH.
Qed.

Lemma candidates_pairs (n : Topology.network) :
  map (fun c => (bus0 c, bus1 c)) (candidates n)
  = map Topology.key_of (Topology.raw_candidates n).
Proof.
  unfold candidates, Topology.raw_candidates.
  rewrite !map_app, !map_map.
  apply (f_equal2 (@app Topology.key)); [reflexivity|].
  exact (eq_sym (fix_underwater_fraction_DC n)).
Qed.

Lemma sorted_pair_canonical (c : pipe) (e : Topology.edge) :
  (bus0 c, bus1 c) = Topology.key_of e ->
  sorted_pair c = Topology.key_of (Topology.canonical e).
Proof.
  unfold Topology.key_of. intros E. injection E as E0 E1.
  unfold sorted_pair, Topology.canonical, Topology.positive_order.
  rewrite E0, E1.
  destruct (String.ltb (Topology.bus0 e) (Topology.bus1 e)) eqn:L.
  - now rewrite (ltb_asym _ _ L).
  - cbn [Topology.key_of Topology.swap_edge Topology.bus0 Topology.bus1].
    destruct (String.ltb (Topology.bus1 e) (Topology.bus0 e)) eqn:L';
      [reflexivity|].
    destruct (string_dec (Topology.bus0 e) (Topology.bus1 e)) as [-> | Hne];
      [reflexivity|].
    pose proof (ltb_total _ _ L Hne). congruence.
Qed.

Lemma topology_pairs (prefix connector : string) (n : Topology.network) :
  map (fun r => (Topology.r_bus0 r, Topology.r_bus1 r))
    (Topology.create_network_topology prefix connector n true)
  = Topology.group_keys (Topology.normalize (Topology.raw_candidates n)).
Proof.
  unfold Topology.create_network_topology, Topology.groupby_mean.
  cbn [negb]. rewrite map_map. cbn [Topology.r_bus0 Topology.r_bus1].
  rewrite <- (map_id (Topology.group_keys _)) at 2. apply map_ext.
  now intros [k0 k1].
Qed.

(** The pipelines are between the same pairs of buses as the rows of the
    topology that [create_network_topology] builds with
    [bidirectional=True] from the same network: one pipeline for each row,
    and as many pipelines as rows. *)
Theorem pipelines_match_topology (prefix connector : string)
    (n : Topology.network) :
  Permutation
    (map sorted_pair (h2_links n))
    (map (fun r => (Topology.r_bus0 r, Topology.r_bus1 r))
       (Topology.create_network_topology prefix connector n true))
  /\ List.length (h2_links n)
     = List.length (Topology.create_network_topology prefix connector n true).
Proof.
  assert (HP : Permutation
            (map sorted_pair (h2_links n))
            (map (fun r => (Topology.r_bus0 r, Topology.r_bus1 r))
               (Topology.create_network_topology prefix connector n true))).
  { apply NoDup_Permutation.
    - apply keep_first_NoDup.
    - rewrite topology_pairs. apply sorted_NoDup, group_keys_sorted.
    - intros k. rewrite topology_pairs, In_group_keys_iff.
      assert (Hperm : In k (map Topology.key_of
                             (Topology.normalize (Topology.raw_candidates n)))
                      <-> In k (map Topology.key_of
                                  (map Topology.canonical
                                     (Topology.raw_candidates n)))).
      { split; apply Permutation_in; [|symmetry];
          apply Permutation_map, normalize_canonical. }
      rewrite Hperm, map_map. split.
      + intros H. apply in_map_iff in H. destruct H as (c & <- & Hc).
        apply keep_first_In in Hc. destruct Hc as [Hc _].
        apply (in_map (fun c => (bus0 c, bus1 c))) in Hc.
        rewrite candidates_pairs in Hc. apply in_map_iff in Hc.
        destruct Hc as (e & He & Hin). apply in_map_iff. exists e.
        split; [|exact Hin]. symmetry. now apply sorted_pair_canonical.
      + intros H. apply in_map_iff in H. destruct H as (e & <- & He).
        apply (in_map Topology.key_of) in He.
        rewrite <- candidates_pairs in He. apply in_map_iff in He.
        destruct He as (c & Hk & Hc).
        destruct (keep_first_complete [] _ c Hc) as [[] | Hin].
        rewrite <- (sorted_pair_canonical c e Hk). exact Hin. }
  split; [exact HP|].
  apply Permutation_length in HP. now rewrite !length_map in HP.
Qed.

(** *** The pipelines once their efficiency is set *)

(** When the pipelines are added, the configured compression is positive
    and so is the decay factor, the call of [set_length_based_efficiency]
    that ends the function gives the pipeline made from a candidate row the [bus2] that
    is [bus0] of that row (the electricity bus, the suffix [" H2"] put on
    by the function being taken off again), the length-based efficiency for
    the length of that row, and the matching [efficiency2]. *)
Theorem pipelines_draw_from_start_bus (n : Topology.network) (cost : Q)
    (ext_link ext_store : option (list string)) (added : list h2_link)
    (existing : list LengthEfficiency.link)
    (config : LengthEfficiency.efficiencies) (i : nat) (c : pipe) :
  attach_hydrogen_pipelines n cost ext_link ext_store = Added added ->
  (0 < LengthEfficiency.get
         (LengthEfficiency.compression_per_1000km config) 0)%R ->
  (0 < LengthEfficiency.get
         (LengthEfficiency.efficiency_per_1000km config) 1)%R ->
  nth_error (h2_links n) i = Some c ->
  exists l',
    nth_error
      (LengthEfficiency.set_length_based_efficiency
         (existing ++ map madd_row added) "H2 pipeline" " H2" config)
      (List.length existing + i) = Some l'
    /\ LengthEfficiency.name l' = h2_name c
    /\ LengthEfficiency.bus2 l' = Some (bus0 c)
    /\ LengthEfficiency.efficiency l'
       = (LengthEfficiency.get
            (LengthEfficiency.efficiency_static config) 1
          * Rpower
              (LengthEfficiency.get
                 (LengthEfficiency.efficiency_per_1000km config) 1)
              (Q2R (length c) / 1000))%R
    /\ LengthEfficiency.efficiency2 l'
       = Some (- LengthEfficiency.get
                   (LengthEfficiency.compression_per_1000km config) 0
               * Q2R (length c) / 1000)%R.
Proof.
  intros Hrun Hpos _ Hnth.
  unfold attach_hydrogen_pipelines in Hrun.
  destruct (negb (contains_name "H2 pipeline" (get_list ext_link)));
    [discriminate|].
  destruct (negb (contains_name "H2" (get_list ext_store)));
    [discriminate|].
  injection Hrun as <-.
  assert (Hrow : nth_error (existing ++ map madd_row
                              (map (new_link cost) (h2_links n)))
                   (List.length existing + i)
                 = Some (madd_row (new_link cost c))).
  { rewrite nth_error_app2 by lia.
    replace (List.length existing + i - List.length existing)%nat with i
      by lia.
    rewrite map_map.
    exact (map_nth_error (fun x => madd_row (new_link cost x)) _ _ Hnth). }
  eexists. split.
  - apply LengthEfficiencyFacts.updated_row_nth. exact Hrow.
  - unfold LengthEfficiency.updated_row. cbn zeta.
    cbn [madd_row new_link LengthEfficiency.carrier carrier String.eqb
         Ascii.eqb Bool.eqb].
    destruct (Rlt_dec 0 (LengthEfficiency.get
                (LengthEfficiency.compression_per_1000km config) 0%R));
      [|contradiction].
    cbn [LengthEfficiency.name LengthEfficiency.bus2
         LengthEfficiency.efficiency LengthEfficiency.efficiency2
         LengthEfficiency.bus0 LengthEfficiency.length
         name link_bus0 link_length].
    split; [reflexivity|]. split; [|split; reflexivity].
    exact (f_equal Some
             (LengthEfficiencyFacts.removesuffix_append (bus0 c) " H2")).
Qed.

Lemma pipelines_draw_from_start_bus_witness :
  exists l',
    nth_error
      (LengthEfficiency.set_length_based_efficiency
         (LengthEfficiency.sample_links
          ++ map madd_row
               (map (new_link 3) (h2_links sample_network)))
         "H2 pipeline" " H2" LengthEfficiency.sample_config) 5 = Some l'
    /\ LengthEfficiency.name l' = "H2 pipeline MA 2-MA 1"
    /\ LengthEfficiency.bus2 l' = Some "MA 2".
Proof.
  destruct (pipelines_draw_from_start_bus sample_network 3
              (Some ["H2 pipeline"]) (Some ["H2"]) _
              LengthEfficiency.sample_links LengthEfficiency.sample_config
              1 {| bus0 := "MA 2"; bus1 := "MA 1"; length := 20 |}
              eq_refl ltac:(cbn; lra) ltac:(cbn; lra) eq_refl)
    as (l' & Hnth & Hname & Hbus & _).
  exists l'. split; [exact Hnth|]. split; [exact Hname | exact Hbus].
Defined.

End HydrogenPipelinesFacts.

Module CyclingShiftFacts.
Import CyclingShift.

(** *** Rolling a list *)

Lemma roll_length {A : Type} (l : list A) (steps : Z) :
  List.length (roll l steps) = List.length l.
Proof.
  destruct l as [|d l]; [reflexivity|].
  unfold roll. now rewrite length_map, length_seq.
Qed.

Lemma roll_index_bound (n : nat) (i : nat) (steps : Z) :
  (0 < n)%nat ->
  (Z.to_nat ((Z.of_nat i - steps) mod Z.of_nat n) < n)%nat.
Proof.
  intros Hn.
  pose proof (Z.mod_pos_bound (Z.of_nat i - steps) (Z.of_nat n) ltac:(lia)).
  lia.
Qed.

Lemma roll_nth {A : Type} (l : list A) (steps : Z) (i : nat) (d : A) :
  (i < List.length l)%nat ->
  nth i (roll l steps) d
  = nth (Z.to_nat ((Z.of_nat i - steps) mod Z.of_nat (List.length l))) l d.
Proof.
  intros Hi. destruct l as [|d0 l]; [cbn in Hi; lia|].
  unfold roll. cbn zeta.
  set (f := fun i => nth (Z.to_nat ((Z.of_nat i - steps)
                            mod Z.of_nat (List.length (d0 :: l))))
                       (d0 :: l) d0).
  rewrite (nth_indep _ d (f 0%nat))
    by (now rewrite length_map, length_seq).
  rewrite map_nth, seq_nth by exact Hi. cbn [Nat.add]. unfold f.
  apply nth_indep. apply roll_index_bound. lia.
Qed.

Lemma roll_roll {A : Type} (l : list A) (a b : Z) :
  roll (roll l a) b = roll l (a + b).
Proof.
  destruct l as [|d l]; [reflexivity|].
  apply (nth_ext _ _ d d); [now rewrite !roll_length|].
  intros i Hi. rewrite !roll_length in Hi.
  rewrite roll_nth by (now rewrite roll_length).
  rewrite roll_length.
  rewrite roll_nth by (apply roll_index_bound; lia).
  rewrite roll_nth by exact Hi.
  f_equal. f_equal.
  set (n := Z.of_nat (List.length (d :: l))).
  assert (Hn : 0 < n) by (subst n; cbn [List.length]; lia).
  rewrite Z2Nat.id by (apply Z.mod_pos_bound; exact Hn).
  rewrite Zminus_mod_idemp_l. f_equal. lia.
Qed.

Lemma roll_multiple {A : Type} (l : list A) (steps : Z) :
  steps mod Z.of_nat (List.length l) = 0 -> roll l steps = l.
Proof.
  intros Hs. destruct l as [|d l]; [reflexivity|].
  apply (nth_ext _ _ d d); [apply roll_length|].
  intros i Hi. rewrite roll_length in Hi. rewrite roll_nth by exact Hi.
  f_equal.
  set (n := Z.of_nat (List.length (d :: l))) in *.
  assert (Hn : 0 < n) by (subst n; cbn [List.length]; lia).
  rewrite Zminus_mod, Hs, Z.sub_0_r, Z.mod_mod by lia.
  rewrite Z.mod_small by lia. apply Nat2Z.id.
Qed.

Lemma roll_map {A B : Type} (f : A -> B) (l : list A) (steps : Z) :
  roll (map f l) steps = map f (roll l steps).
Proof.
  destruct l as [|d l]; [reflexivity|].
  apply (nth_ext _ _ (f d) (f d));
    [now rewrite roll_length, !length_map, roll_length|].
  intros i Hi. rewrite roll_length, length_map in Hi.
  rewrite roll_nth by (now rewrite length_map).
  rewrite !map_nth, length_map. now rewrite roll_nth by exact Hi.
Qed.

(** A list without repetition comes back from a roll only when the number
    of steps is a multiple of its length. *)
Lemma roll_fixed_NoDup {A : Type} (l : list A) (steps : Z) :
  NoDup l -> roll l steps = l -> l <> [] ->
  steps mod Z.of_nat (List.length l) = 0.
Proof.
  intros Hnd Hroll Hne. destruct l as [|d l]; [congruence|].
  set (n := Z.of_nat (List.length (d :: l))) in *.
  assert (Hn : 0 < n) by (subst n; cbn [List.length]; lia).
  assert (H0 : nth 0 (roll (d :: l) steps) d = nth 0 (d :: l) d)
    by now rewrite Hroll.
  rewrite roll_nth in H0 by (cbn [List.length]; lia). fold n in H0.
  apply (proj1 (NoDup_nth (d :: l) d) Hnd) in H0;
    [| apply roll_index_bound; cbn [List.length]; lia
     | cbn [List.length]; lia].
  pose proof (Z.mod_pos_bound (Z.of_nat 0 - steps) n Hn) as Hb.
  assert (Hm : (0 - steps) mod n = 0) by (cbn [Z.of_nat] in *; lia).
  apply Z.mod_divide in Hm; [|lia]. destruct Hm as [k Hk].
  apply Z.mod_divide; [lia|]. exists (- k). lia.
Qed.

Section Frame.

Variable K : Type.
Variable K_eq_dec : forall a b : K, {a = b} + {a <> b}.
Variable V : Type.
Variable nan : V.

Local Abbreviation frame := (frame K V).
Local Abbreviation dataframe := (dataframe K V).
Local Abbreviation lookup := (lookup K K_eq_dec V nan).
Local Abbreviation cycling_shift := (cycling_shift K K_eq_dec V nan).

Lemma has_duplicates_NoDup (l : list K) :
  NoDup l -> has_duplicates K K_eq_dec l = false.
Proof.
  induction 1 as [|k l Hnot Hnd IH]; [reflexivity|].
  cbn [has_duplicates]. rewrite IH, orb_false_r.
  destruct (existsb _ l) eqn:E; [|reflexivity].
  apply existsb_exists in E. destruct E as (k' & Hin & Hk).
  destruct (K_eq_dec k k') as [-> | ]; [contradiction | discriminate].
Qed.

Lemma lookup_nth (df : frame) (i : nat) (k : K) (v : V) :
  NoDup (map fst df) -> (i < List.length df)%nat ->
  lookup df (nth i (map fst df) k) = nth i (map snd df) v.
Proof.
  unfold CyclingShift.lookup. revert i.
  induction df as [|[k0 v0] df IH]; intros i Hnd Hi; [cbn in Hi; lia|].
  cbn [map fst snd] in Hnd |- *. inversion Hnd as [|? ? Hnot Hnd']; subst.
  destruct i as [|i]; cbn [nth find fst snd].
  - now destruct (K_eq_dec k0 k0).
  - cbn [List.length] in Hi.
    destruct (K_eq_dec k0 (nth i (map fst df) k)) as [E | _].
    + exfalso. apply Hnot. rewrite E. apply nth_In.
      rewrite length_map. lia.
    + apply IH; [exact Hnd' | lia].
Qed.

Lemma reindexed_values_roll (df : frame) (steps : Z) :
  NoDup (map fst df) ->
  reindex_values K K_eq_dec V nan df (roll (map fst df) steps)
  = Py.Ok (roll (map snd df) steps).
Proof.
  intros Hnd. unfold reindex_values.
  destruct (list_eq_dec K_eq_dec (roll (map fst df) steps) (map fst df))
    as [E | _].
  - f_equal. destruct df as [|row df]; [reflexivity|].
    symmetry. apply roll_multiple.
    apply roll_fixed_NoDup in E; [|exact Hnd|discriminate].
    now rewrite !length_map in *.
  - rewrite (has_duplicates_NoDup _ Hnd). f_equal.
    destruct df as [|[k0 v0] df]; [reflexivity|].
    apply (nth_ext _ _ v0 v0);
      [now rewrite length_map, !roll_length, !length_map|].
    intros i Hi. rewrite length_map, roll_length, length_map in Hi.
    rewrite (nth_indep _ v0 (lookup ((k0, v0) :: df) k0))
      by (now rewrite length_map, roll_length, length_map).
    rewrite map_nth.
    rewrite roll_nth by (now rewrite length_map).
    rewrite roll_nth by (now rewrite length_map).
    rewrite !length_map. apply lookup_nth; [exact Hnd|].
    apply roll_index_bound. lia.
Qed.

Lemma cycling_shift_eq (df : dataframe) (steps : Z) :
  NoDup (map fst (data df)) ->
  cycling_shift df steps
  = Py.Ok {| data := if values_is_view df
                     then combine (map fst (data df))
                            (roll (map snd (data df)) steps)
                     else data df;
             values_is_view := values_is_view df |}.
Proof.
  intros Hnd. unfold CyclingShift.cycling_shift.
  now rewrite (reindexed_values_roll (data df) steps Hnd).
Qed.

Lemma combine_fst_snd {A B : Type} (l : list A) (l' : list B) :
  List.length l = List.length l' ->
  map fst (combine l l') = l /\ map snd (combine l l') = l'.
Proof.
  revert l'. induction l as [|a l IH]; intros [|b l'] H; cbn in *;
    try discriminate; [auto|].
  destruct (IH l' ltac:(lia)) as [-> ->]. auto.
Qed.

Lemma combine_map_fst_snd {A B : Type} (l : list (A * B)) :
  combine (map fst l) (map snd l) = l.
Proof.
  induction l as [|[a b] l IH]; cbn; [reflexivity | now rewrite IH].
Qed.

(** For a series or frame whose index has no repeated label and whose
    [values] are a view of its data, [cycling_shift] keeps the index and
    rolls the values: the row at position [i] gets the values that were at
    position [(i - steps) mod n].  When [values] are not a view (columns
    of different types) the function returns the frame as it was. *)
Theorem cycling_shift_rolls_values (df : dataframe) (steps : Z) :
  NoDup (map fst (data df)) ->
  exists shifted,
    cycling_shift df steps = Py.Ok shifted
    /\ map fst (data shifted) = map fst (data df)
    /\ values_is_view shifted = values_is_view df
    /\ (values_is_view df = true ->
        map snd (data shifted) = roll (map snd (data df)) steps
        /\ forall i v, (i < List.length (data df))%nat ->
             nth i (map snd (data shifted)) v
             = nth (Z.to_nat ((Z.of_nat i - steps)
                              mod Z.of_nat (List.length (data df))))
                   (map snd (data df)) v)
    /\ (values_is_view df = false -> shifted = df).
Proof.
  intros Hnd. eexists. split; [now apply cycling_shift_eq|].
  cbn [data values_is_view].
  destruct (combine_fst_snd (map fst (data df))
              (roll (map snd (data df)) steps))
    as [Hf Hs]; [now rewrite roll_length, !length_map|].
  split; [destruct (values_is_view df); [exact Hf | reflexivity]|].
  split; [reflexivity|]. split.
  - intros ->. split; [exact Hs|].
    intros i v Hi. rewrite Hs.
    rewrite roll_nth by (now rewrite length_map). now rewrite length_map.
  - intros E. rewrite E. destruct df as [rows view]. cbn in *. now subst.
Qed.

(** For a series or frame whose [values] are a view, shifts add up, and a
    shift by a multiple of the number of rows gives the frame back. *)
Theorem cycling_shift_composes (df : dataframe) (a b : Z) :
  NoDup (map fst (data df)) ->
  values_is_view df = true ->
  (shifted <- cycling_shift df a ;; cycling_shift shifted b)
  = cycling_shift df (a + b)
  /\ (forall k, cycling_shift df (k * Z.of_nat (List.length (data df)))
                = Py.Ok df).
Proof.
  intros Hnd Hview.
  destruct (combine_fst_snd (map fst (data df))
              (roll (map snd (data df)) a))
    as [Hf Hs]; [now rewrite roll_length, !length_map|].
  split.
  - rewrite (cycling_shift_eq df a Hnd). cbn [Py.bind].
    rewrite cycling_shift_eq
      by (cbn [data]; rewrite Hview; now rewrite Hf).
    rewrite (cycling_shift_eq df (a + b) Hnd).
    cbn [data values_is_view]. rewrite Hview.
    now rewrite Hf, Hs, roll_roll.
  - intros k. rewrite (cycling_shift_eq df _ Hnd). rewrite Hview.
    destruct df as [rows view]. cbn [data values_is_view] in *. subst view.
    destruct rows as [|row rows]; [reflexivity|].
    rewrite roll_multiple
      by (rewrite length_map; apply Z.mod_mul; cbn [List.length]; lia).
    now rewrite combine_map_fst_snd.
Qed.

End Frame.

Lemma cycling_shift_rolls_values_witness :
  cycling_shift string string_dec Z 0 sample_series 1
  = Py.Ok {| data := [ ("00:00", 13); ("01:00", 10); ("02:00", 11);
                       ("03:00", 12) ];
             values_is_view := true |}
  /\ cycling_shift string string_dec (Z * string) (0, "") sample_mixed 1
     = Py.Ok sample_mixed.
Proof.
  split.
  - destruct (cycling_shift_rolls_values string string_dec Z 0
                sample_series 1) as (shifted & Hrun & _).
    + repeat constructor; cbn; intuition discriminate.
    + reflexivity.
  - destruct (cycling_shift_rolls_values string string_dec (Z * string)
                (0, "") sample_mixed 1) as (shifted & Hrun & _ & _ & _ & Hsame).
    + repeat constructor; cbn; intuition discriminate.
    + rewrite Hrun. f_equal. now apply Hsame.
Defined.

Lemma cycling_shift_composes_witness :
  (shifted <- cycling_shift string string_dec Z 0 sample_series 3 ;;
   cycling_shift string string_dec Z 0 shifted 1)
  = Py.Ok sample_series.
Proof.
  destruct (cycling_shift_composes string string_dec Z 0 sample_series 3 1)
    as [Hadd Hperiod].
  - repeat constructor; cbn; intuition discriminate.
  - reflexivity.
  - rewrite Hadd. exact (Hperiod 1).
Defined.

End CyclingShiftFacts.

Module GadmFramesFacts.
Import GadmFrames.

Section IO.

Variable frame : Type.
Variable crs : Type.
Variable io_error : Type.
Variable download_gadm : string -> bool -> bool -> io_error + string.
Variable listlayers : string -> io_error + list string.
Variable read_layer : string -> string -> Z -> io_error + frame.
Variable set_columns : frame -> Z -> io_error + frame.
Variable concat_frames : list frame -> bool -> frame.
Variable frame_crs : frame -> crs.
Variable set_crs : frame -> crs -> frame.

Local Abbreviation pyobj := (pyobj frame).
Local Abbreviation pd_concat := (pd_concat frame io_error concat_frames).
Local Abbreviation loop :=
  (loop frame io_error download_gadm listlayers read_layer set_columns
     concat_frames).
Local Abbreviation get_gadm_layer :=
  (get_gadm_layer frame crs io_error download_gadm listlayers read_layer
     set_columns concat_frames frame_crs set_crs).

(** A Python list among the objects makes [pd.concat] raise. *)
Lemma pd_concat_list_first (items : list frame) (rest : list pyobj)
    (ignore_index : bool) :
  pd_concat (PyList items :: rest) ignore_index
  = Raises (TypeError concat_list_msg).
Proof. reflexivity. Qed.

(** The first pass of the loop, started on a Python list, does not get
    past its last statement. *)
Lemma loop_from_list_raises (country_code : string) (rest : list string)
    (layer_id : Z) (update outlogging : bool) (items : list frame) :
  exists e,
    loop (country_code :: rest) layer_id update outlogging (PyList items)
    = Raises e.
Proof.
  cbn [GadmFrames.loop].
  destruct (download_gadm country_code update outlogging) as [e | file];
    cbn [step]; [eauto|].
  destruct (listlayers file) as [e | layers]; cbn [step]; [eauto|].
  destruct (GadmLayer.select_layer layer_id layers) as [lid code].
  destruct (read_layer file country_code code) as [e | df];
    cbn [step]; [eauto|].
  destruct (set_columns df code) as [e | df']; cbn [step]; [eauto|].
  rewrite pd_concat_list_first. cbn [bind]. eauto.
Qed.

(** [get_gadm_layer] returns no frame, whatever it is called with: without
    countries the loop is skipped and the closing [pd.concat] is given the
    empty list, which it refuses with [ValueError]; with countries the
    first pass of the loop ends in an error of one of the reading steps
    or, when they all succeed, in the [TypeError] of [pd.concat] on the
    Python list that [geodf_list] still is. *)
Theorem get_gadm_layer_never_returns (country_list : list string)
    (layer_id : Z) (update outlogging : bool) :
  (forall geodf_gadm,
     get_gadm_layer country_list layer_id update outlogging
     <> Returns geodf_gadm)
  /\ (country_list = [] ->
      get_gadm_layer country_list layer_id update outlogging
      = Raises (ValueError concat_empty_msg))
  /\ (forall country_code rest file_gpkg list_layers geodf_temp geodf,
        country_list = country_code :: rest ->
        download_gadm country_code update outlogging = inr file_gpkg ->
        listlayers file_gpkg = inr list_layers ->
        read_layer file_gpkg country_code
          (GadmLayer.code_layer layer_id list_layers) = inr geodf_temp ->
        set_columns geodf_temp (GadmLayer.code_layer layer_id list_layers)
        = inr geodf ->
        get_gadm_layer country_list layer_id update outlogging
        = Raises (TypeError concat_list_msg)).
Proof.
  split; [|split].
  - intros geodf_gadm. unfold GadmFrames.get_gadm_layer.
    destruct country_list as [|country_code rest].
    + cbn. discriminate.
    + destruct (loop_from_list_raises country_code rest layer_id update
                  outlogging []) as (e & ->).
      cbn [bind]. discriminate.
  - intros ->. reflexivity.
  - intros country_code rest file_gpkg list_layers geodf_temp geodf
      -> Hd Hl Hr Hs.
    unfold GadmFrames.get_gadm_layer. cbn [GadmFrames.loop].
    rewrite Hd. cbn [step]. rewrite Hl. cbn [step].
    unfold GadmLayer.code_layer in Hr, Hs.
    destruct (GadmLayer.select_layer layer_id list_layers) as [lid code].
    cbn [snd] in Hr, Hs. rewrite Hr. cbn [step]. rewrite Hs. cbn [step].
    rewrite pd_concat_list_first. reflexivity.
Qed.

End IO.

Lemma get_gadm_layer_never_returns_witness :
  sample_get_gadm_layer ["MA"; "DZ"] 1 false false
  = Raises (TypeError concat_list_msg).
Proof.
  refine (proj2 (proj2 (get_gadm_layer_never_returns sample_frame nat unit
    sample_download sample_listlayers sample_read_layer (fun df _ => inr df)
    (fun dfs _ => List.concat dfs) (fun _ => 4326%nat) (fun df _ => df)
    ["MA"; "DZ"] 1 false false))
    "MA" ["DZ"] "MA.gpkg" ["0"; "1"; "2"] ["MA.1"] ["MA.1"]
    eq_refl eq_refl eq_refl eq_refl eq_refl).
Defined.

End GadmFramesFacts.

Module RepoRootFacts.
Import RepoRoot.

Ltac zbool :=
  first [ apply Z.ltb_ge; lia | apply Z.ltb_lt; lia
        | apply Z.eqb_neq; lia | apply Z.eqb_eq; lia ].

Lemma up_succ (k : nat) (cwd : path) :
  up (S k) cwd = change_to_script_dir (up k cwd).
Proof.
  revert cwd. induction k as [|k IH]; intros cwd; [reflexivity|].
  cbn [up] in *. now rewrite IH.
Qed.

(** The directory reached is an ancestor of the one the search starts
    in. *)
Lemma up_is_prefix (k : nat) (cwd : path) :
  exists below, cwd = (up k cwd ++ below)%list.
Proof.
  revert cwd. induction k as [|k IH]; intros cwd; cbn [up].
  - exists []. now rewrite app_nil_r.
  - destruct (IH (change_to_script_dir cwd)) as (below & E).
    destruct cwd as [|d cwd'] using rev_ind.
    + exists below. exact E.
    + unfold change_to_script_dir in *. rewrite removelast_last in *.
      exists (below ++ [d])%list. rewrite app_assoc. now rewrite <- E.
Qed.

(** One pass of the loop. *)
Lemma search_pass (repo_name : string) (n0 : Z) (passes : nat) (n : Z)
    (cwd : path) (printed : list message) :
  0 <= n ->
  search repo_name n0 (S passes) n cwd printed
  = if String.eqb repo_name (get_basename_abs_path cwd) then
      (cwd, (printed ++ [RepositoryPath cwd;
                         FoldersUp (n0 - 1 - (n - 1))])%list)
    else if n - 1 =? 0 then
      search repo_name n0 passes (n - 1) cwd (printed ++ [CantFind])%list
    else
      search repo_name n0 passes (n - 1) (change_to_script_dir cwd) printed.
Proof.
  intros Hn. cbn [search].
  replace (n <? 0) with false by (symmetry; zbool). reflexivity.
Qed.

Lemma search_done (repo_name : string) (n0 : Z) (passes : nat) (n : Z)
    (cwd : path) (printed : list message) :
  n < 0 -> search repo_name n0 passes n cwd printed = (cwd, printed).
Proof.
  intros Hn. destruct passes; cbn [search]; [reflexivity|].
  replace (n <? 0) with true by (symmetry; zbool). reflexivity.
Qed.

(** The passes of the loop while the name is not found: [m] is the loop
    variable, at least one more pass is allowed than its value. *)
Lemma search_not_found (repo_name : string) (n0 : Z) (m : nat)
    (extra : nat) (cwd : path) (printed : list message) :
  (forall i, (i < Nat.max m 1)%nat ->
     String.eqb repo_name (get_basename_abs_path (up i cwd)) = false) ->
  search repo_name n0 (S (m + extra)) (Z.of_nat m) cwd printed
  = (up (Nat.max m 1) cwd,
     (printed ++ if (1 <=? m)%nat then [CantFind] else [])%list).
Proof.
  revert cwd printed. induction m as [|m IH]; intros cwd printed Hno;
    pose proof (Hno 0%nat ltac:(lia)) as H0; cbn [up] in H0;
    rewrite search_pass by lia; rewrite H0.
  - cbn [Z.of_nat Z.sub Z.opp Z.add Z.eqb]. rewrite search_done by lia.
    cbn. now rewrite app_nil_r.
  - replace (Z.of_nat (S m) - 1) with (Z.of_nat m) by lia.
    cbn [Nat.add]. destruct m as [|m].
    + cbn [Z.of_nat Z.eqb Nat.add]. rewrite search_pass by lia.
      rewrite H0. cbn [Z.sub Z.opp Z.add Z.eqb].
      rewrite search_done by lia. reflexivity.
    + replace (Z.of_nat (S m) =? 0) with false by (symmetry; zbool).
      rewrite IH.
      * replace (Nat.max (S m) 1) with (S m) by lia.
        replace (Nat.max (S (S m)) 1) with (S (S m)) by lia.
        reflexivity.
      * intros i Hi. apply (Hno (S i)). lia.
Qed.

(** The passes up to the one that finds the name, [j] directories up. *)
Lemma search_found (repo_name : string) (n0 : Z) (m j : nat) (extra : nat)
    (cwd : path) (printed : list message) :
  (j < Nat.max m 1)%nat ->
  (forall i, (i < j)%nat ->
     String.eqb repo_name (get_basename_abs_path (up i cwd)) = false) ->
  String.eqb repo_name (get_basename_abs_path (up j cwd)) = true ->
  search repo_name n0 (S (m + extra)) (Z.of_nat m) cwd printed
  = (up j cwd,
     (printed ++ [RepositoryPath (up j cwd);
                  FoldersUp (n0 - 1 - (Z.of_nat m - 1 - Z.of_nat j))])%list).
Proof.
  revert m cwd. induction j as [|j IH]; intros m cwd Hj Hno Hyes;
    rewrite search_pass by lia.
  - cbn [up] in *. rewrite Hyes.
    replace (Z.of_nat m - 1 - Z.of_nat 0) with (Z.of_nat m - 1) by lia.
    reflexivity.
  - destruct m as [|[|m]]; [cbn in Hj; lia | cbn in Hj; lia |].
    pose proof (Hno 0%nat ltac:(lia)) as H0. cbn [up] in H0. rewrite H0.
    replace (Z.of_nat (S (S m)) - 1) with (Z.of_nat (S m)) by lia.
    replace (Z.of_nat (S m) =? 0) with false by (symmetry; zbool).
    change (S (S m) + extra)%nat with (S (S m + extra)).
    rewrite (IH (S m) (change_to_script_dir cwd)).
    + cbn [up].
      match goal with
      | |- (_, (_ ++ [_; FoldersUp ?a])%list)
           = (_, (_ ++ [_; FoldersUp ?b])%list) =>
          replace a with b by lia
      end.
      reflexivity.
    + lia.
    + intros i Hi. apply (Hno (S i)). lia.
    + exact Hyes.
Qed.

(** When the directory [j] levels up is the first with the name looked
    for, and [j] is below [n] (or is 0), the search ends there and prints
    that it went [j] folders up. *)
Theorem root_found_at_nearest_ancestor (root_directory_name : string)
    (n : Z) (j : nat) (cwd : path) :
  0 <= n ->
  Z.of_nat j < Z.max n 1 ->
  (forall i, (i < j)%nat ->
     get_basename_abs_path (up i cwd) <> root_directory_name) ->
  get_basename_abs_path (up j cwd) = root_directory_name ->
  sets_path_to_root root_directory_name n cwd
  = (up j cwd, [RepositoryPath (up j cwd); FoldersUp (Z.of_nat j)]).
Proof.
  intros Hn Hj Hno Hyes. unfold sets_path_to_root.
  replace (Z.to_nat (n + 1)) with (S (Z.to_nat n + 0)) by lia.
  pose proof (search_found root_directory_name n (Z.to_nat n) j 0 cwd [])
    as H.
  rewrite Z2Nat.id in H by exact Hn. rewrite H.
  - cbn [app].
    replace (n - 1 - (n - 1 - Z.of_nat j)) with (Z.of_nat j) by lia.
    reflexivity.
  - lia.
  - intros i Hi. apply String.eqb_neq. intros E. now apply (Hno i Hi).
  - apply String.eqb_eq. now symmetry.
Qed.

Lemma root_found_at_nearest_ancestor_witness :
  sets_path_to_root "pypsa-earth" 8 sample_cwd
  = (["home"; "user"; "pypsa-earth"],
     [RepositoryPath ["home"; "user"; "pypsa-earth"]; FoldersUp 2]).
Proof.
  apply (root_found_at_nearest_ancestor "pypsa-earth" 8 2 sample_cwd).
  - lia.
  - reflexivity.
  - intros [|[|i]] Hi; [discriminate | discriminate | lia].
  - reflexivity.
Defined.

(** When none of the directories that are looked at has the name (the
    working directory and those less than [n] levels above it), the
    message that the path cannot be found is printed, for [n >= 1], and
    the working directory is nevertheless left [max n 1] levels up: one
    level above the last directory that was looked at, and an ancestor of
    the directory the search started in. *)
Theorem root_not_found_leaves_cwd_changed (root_directory_name : string)
    (n : Z) (cwd : path) :
  0 <= n ->
  (forall i, Z.of_nat i < Z.max n 1 ->
     get_basename_abs_path (up i cwd) <> root_directory_name) ->
  sets_path_to_root root_directory_name n cwd
  = (up (Z.to_nat (Z.max n 1)) cwd, if 1 <=? n then [CantFind] else [])
  /\ exists below, cwd = (up (Z.to_nat (Z.max n 1)) cwd ++ below)%list.
Proof.
  intros Hn Hno. split; [|apply up_is_prefix].
  unfold sets_path_to_root.
  replace (Z.to_nat (n + 1)) with (S (Z.to_nat n + 0)) by lia.
  pose proof (search_not_found root_directory_name n (Z.to_nat n) 0 cwd [])
    as H.
  rewrite Z2Nat.id in H by exact Hn. rewrite H.
  - cbn [app]. f_equal; [f_equal; lia|].
    destruct (Z.leb_spec 1 n), (Nat.leb_spec 1 (Z.to_nat n));
      try reflexivity; lia.
  - intros i Hi. apply String.eqb_neq. intros E.
    apply (Hno i); [lia | now symmetry].
Qed.

Lemma root_not_found_leaves_cwd_changed_witness :
  sets_path_to_root "pypsa-earth" 2 sample_cwd
  = (["home"; "user"; "pypsa-earth"], [CantFind]).
Proof.
  apply (root_not_found_leaves_cwd_changed "pypsa-earth" 2 sample_cwd).
  - lia.
  - intros [|[|i]] Hi; [discriminate | discriminate | cbn in Hi; lia].
Defined.

(** More passes than [n + 1] would change nothing: the bound on the
    passes is never what ends the search. *)
Lemma search_passes_suffice (repo_name : string) (n0 : Z) (passes : nat)
    (n : Z) (extra : nat) (cwd : path) (printed : list message) :
  n + 1 <= Z.of_nat passes ->
  search repo_name n0 (passes + extra) n cwd printed
  = search repo_name n0 passes n cwd printed.
Proof.
  revert n cwd printed. induction passes as [|passes IH];
    intros n cwd printed Hn.
  - destruct extra; cbn [Nat.add search]; [reflexivity|].
    replace (n <? 0) with true by (symmetry; zbool). reflexivity.
  - cbn [Nat.add search]. destruct (n <? 0); [reflexivity|].
    destruct (String.eqb repo_name (get_basename_abs_path cwd));
      [reflexivity|].
    destruct (n - 1 =? 0); apply IH; lia.
Qed.

End RepoRootFacts.

Module TopologyUnderwater.
Import Topology.

Lemma raw_candidates_no_column (n : network) (c : edge) :
  links_has_underwater_fraction n = false ->
  In c (raw_candidates n) -> underwater_fraction c = 0%Q.
Proof.
  intros Hcol. unfold raw_candidates, fix_underwater_fraction.
  rewrite Hcol, in_app_iff, !in_map_iff.
  intros [(l & <- & _) | (l & <- & Hl)]; [reflexivity|].
  apply filter_In in Hl. destruct Hl as [Hl _].
  apply in_map_iff in Hl. destruct Hl as (l0 & <- & Hl0).
  cbn [lk_underwater_fraction underwater_fraction].
  now destruct (links n).
Qed.

Lemma normalize_keeps_fraction (cs : list edge) (c : edge) :
  In c (normalize cs) ->
  exists c', In c' cs /\ underwater_fraction c' = underwater_fraction c.
Proof.
  unfold normalize. rewrite in_app_iff, in_map_iff.
  intros [H | (c' & <- & H)]; apply filter_In in H; destruct H as [H _].
  - exists c. auto.
  - exists c'. auto.
Qed.

Lemma mean_of_zeros (xs : list Q) :
  (forall x, In x xs -> x = 0%Q) -> mean xs = 0%Q.
Proof.
  intros H. unfold mean.
  assert (Hs : (Qsum xs == 0)%Q).
  { unfold Qsum. induction xs as [|x xs IH]; [reflexivity|].
    cbn [fold_right]. rewrite (H x (or_introl eq_refl)), IH.
    - reflexivity.
    - intros y Hy. apply H. now right. }
  change 0%Q with (Qred 0). apply Qred_complete. rewrite Hs.
  unfold Qdiv. apply Qmult_0_l.
Qed.

(** When [n.links] is not empty and has no column ["underwater_fraction"],
    the temporary fix (the column set to 0.0) and [fillna(0)] for the
    lines make every row of the topology, in either mode, carry the
    underwater fraction 0. *)
Theorem missing_underwater_fraction_is_zero (prefix connector : string)
    (n : network) (bidirectional : bool) (r : row) :
  links n <> [] ->
  links_has_underwater_fraction n = false ->
  In r (create_network_topology prefix connector n bidirectional) ->
  r_underwater_fraction r = 0%Q.
Proof.
  intros _ Hcol.
  assert (Hrow : forall r0,
            In r0 (groupby_mean prefix connector
                     (normalize (raw_candidates n))) ->
            r_underwater_fraction r0 = 0%Q).
  { intros r0 H. unfold groupby_mean in H. apply in_map_iff in H.
    destruct H as (k & <- & _). cbn [r_underwater_fraction].
    apply mean_of_zeros. intros x Hx. apply in_map_iff in Hx.
    destruct Hx as (c & <- & Hc). apply filter_In in Hc.
    destruct Hc as [Hc _]. apply normalize_keeps_fraction in Hc.
    destruct Hc as (c' & Hc' & <-).
    now apply (raw_candidates_no_column n). }
  unfold create_network_topology.
  destruct bidirectional; cbn [negb]; [exact (Hrow r)|].
  rewrite in_app_iff, in_map_iff.
  intros [H | (r0 & <- & H)]; [now apply Hrow|].
  cbn [reverse_row r_underwater_fraction]. now apply Hrow.
Qed.

Lemma missing_underwater_fraction_is_zero_witness :
  r_underwater_fraction
    {| index := "MA 0-MA 1"; r_bus0 := "MA 0"; r_bus1 := "MA 1";
       r_length := 11; r_underwater_fraction := 0 |} = 0%Q.
Proof.
  apply (missing_underwater_fraction_is_zero "" "-"
           HydrogenPipelines.sample_network true _
           ltac:(discriminate) eq_refl).
  left. reflexivity.
Defined.

End TopologyUnderwater.

Module NaturaRasterFacts.
Import NaturaRaster.

Section Backend.

Variable geometry : Type.
Variable read_file : string -> list geometry.
Variable to_crs : geometry -> geometry.
Variable is_valid : geometry -> bool.
Variable buffer0 : geometry -> geometry.
Variable unary_union : list geometry -> Py.result geometry.

Local Abbreviation repair := (repair geometry is_valid buffer0).
Local Abbreviation read_shapes := (read_shapes geometry read_file to_crs).
Local Abbreviation unify_protected_shape_areas :=
  (unify_protected_shape_areas geometry read_file to_crs is_valid buffer0
     unary_union).

Lemma repair_valid (g : geometry) : is_valid g = true -> repair g = g.
Proof. unfold NaturaRaster.repair. now intros ->. Qed.

Lemma repair_invalid (g : geometry) :
  is_valid g = false -> repair g = buffer0 g.
Proof. unfold NaturaRaster.repair. now intros ->. Qed.

Lemma repaired_all_valid (shape : list geometry) :
  (forall g, is_valid (buffer0 g) = true) ->
  Forall (fun g => is_valid g = true) (map repair shape).
Proof.
  intros Hbuf. apply Forall_forall. intros g Hin.
  apply in_map_iff in Hin. destruct Hin as (g0 & <- & _).
  unfold NaturaRaster.repair. destruct (is_valid g0) eqn:E; [exact E|].
  apply Hbuf.
Qed.

(** With at least one [.shp] input and at least one geometry read,
    [unify_protected_shape_areas] hands [unary_union] a list of the same
    length as the geometries read, in the same order, in which every
    invalid geometry is replaced by its [buffer(0)] and every valid one is
    kept as it is: nothing is dropped, and the function holds no validity
    check of its own, so it returns what [unary_union] returns and raises
    what it raises.  When [buffer(0)] always gives a valid geometry, every
    geometry that reaches [unary_union] is valid.  Without any [.shp]
    input the function raises [UnboundLocalError]. *)
Theorem repaired_shapes_unified (snakemake_input : list string) :
  let shape := read_shapes (shp_files snakemake_input) in
  (shp_files snakemake_input = [] ->
   unify_protected_shape_areas snakemake_input
   = Py.Raise (Py.UnboundLocalError unbound_shape_msg))
  /\ (shp_files snakemake_input <> [] -> shape <> [] ->
      unify_protected_shape_areas snakemake_input
      = unary_union (map repair shape)
      /\ List.length (map repair shape) = List.length shape
      /\ (forall i g, nth_error shape i = Some g ->
            nth_error (map repair shape) i = Some (repair g)
            /\ (is_valid g = true -> repair g = g)
            /\ (is_valid g = false -> repair g = buffer0 g))
      /\ ((forall g, is_valid (buffer0 g) = true) ->
          Forall (fun g => is_valid g = true) (map repair shape))).
Proof.
  intros shape. split.
  - intros E. unfold NaturaRaster.unify_protected_shape_areas.
    now rewrite E.
  - intros Hfiles Hshape.
    assert (Hrun : unify_protected_shape_areas snakemake_input
                   = unary_union (map repair shape)).
    { unfold NaturaRaster.unify_protected_shape_areas. subst shape.
      destruct (shp_files snakemake_input) as [|f files]; [congruence|].
      cbn zeta. destruct (read_shapes (f :: files)) as [|g gs];
        [congruence | reflexivity]. }
    split; [exact Hrun|]. split; [apply length_map|]. split.
    + intros i g Hi. split; [now apply map_nth_error|].
      split; [apply repair_valid | apply repair_invalid].
    + apply repaired_all_valid.
Qed.

End Backend.

End NaturaRasterFacts.
